(** * dedup.py: duplicate-image selection, reporting and deletion

    Shallow embedding of [src/dedup.py].

    - A Python [dict] is a finite map ([gmap]), a Python [set] a finite set
      ([gset]), a Python [int] an integer of [Z], a [list] a list.
    - Paths are strings, compared the way Python compares [str] values:
      lexicographically, character by character.
    - A run is a function from the file system it starts with to the file
      system it ends with and the log of what it did, in order: the lines
      it printed and the calls it made to the hashing library and to
      [os.remove].
    - [os], [pathlib] and the [imagededup] hashers are not part of the
      script; they are the fields of the records [Platform] and [Hasher].
      Walking the tree, hashing an image and grouping the hashes read the
      file system and leave it as it is; only [os.remove] changes it.  A
      call that raises is a call that returns no value.
    - Iterating over a set visits its elements once each, in the order of
      [elements]; no result below depends on that order.
    - The progress bar of [tqdm] shows on the console only and is left
      out. *)

From Stdlib Require Import ZArith String Ascii.
From stdpp Require Import base gmap sets list strings sorting pretty.

Set Warnings "-clear-no-such-hyp".

Local Open Scope string_scope.
Local Open Scope list_scope.

(** ** Lexicographic order on paths ([sorted] over [str] keys)

    [String.le] compares character by character, a proper prefix first. *)

Definition path_lt (s1 s2 : string) : Prop := String.le s1 s2 ∧ s1 ≠ s2.

(** ** Selection phase of [find_and_process_duplicates] (lines 91-114) *)

(** The two sets the loop mutates. *)
Record selection := Selection {
  files_to_remove : gset string;
  kept_files : gset string
}.

Definition selection_init : selection :=
  {| files_to_remove := ∅; kept_files := ∅ |}.

(** [sorted(duplicates.keys())] *)
Definition dict_keys {V} (d : gmap string V) : list string :=
  (map_to_list d).*1.

Definition sorted (l : list string) : list string := merge_sort String.le l.

(** Body of the inner loop, lines 113-114. *)
Definition mark_duplicate (filename : string) (st : selection) (dup : string)
  : selection :=
  if bool_decide (dup ≠ filename)
     && bool_decide (dup ∉ files_to_remove st)
     && bool_decide (dup ∉ kept_files st)
  then {| files_to_remove := {[dup]} ∪ files_to_remove st;
          kept_files := kept_files st |}
  else st.

(** Body of the outer loop, lines 99-114. *)
Definition visit (duplicates : gmap string (list string)) (st : selection)
    (filename : string) : selection :=
  if bool_decide (filename ∈ files_to_remove st) then st
  else
    let dups := default [] (duplicates !! filename) in
    match dups with
    | [] => st
    | _ :: _ =>
        foldl (mark_duplicate filename)
              {| files_to_remove := files_to_remove st;
                 kept_files := {[filename]} ∪ kept_files st |}
              dups
    end.

Definition select_over (duplicates : gmap string (list string))
    (filenames : list string) : selection :=
  foldl (visit duplicates) selection_init (sorted filenames).

Definition select (duplicates : gmap string (list string)) : selection :=
  select_over duplicates (dict_keys duplicates).

(** *** The loop, recording its states

    [select_trace] runs the same loop and returns every state it passes
    through, in order: the initial one, the state after each
    [kept_files.add] and the state after each iteration of the inner loop.
    Its last state is the result of [select]. *)
Fixpoint scanl {A B} (f : A → B → A) (a : A) (l : list B) : list A :=
  match l with
  | [] => []
  | x :: l' => f a x :: scanl f (f a x) l'
  end.

Definition visit_trace (duplicates : gmap string (list string))
    (st : selection) (filename : string) : list selection :=
  if bool_decide (filename ∈ files_to_remove st) then []
  else
    let dups := default [] (duplicates !! filename) in
    match dups with
    | [] => []
    | _ :: _ =>
        let st1 := {| files_to_remove := files_to_remove st;
                      kept_files := {[filename]} ∪ kept_files st |} in
        st1 :: scanl (mark_duplicate filename) st1 dups
    end.

Fixpoint loop_trace (duplicates : gmap string (list string))
    (st : selection) (filenames : list string) : list selection :=
  match filenames with
  | [] => []
  | filename :: rest =>
      visit_trace duplicates st filename
        ++ loop_trace duplicates (visit duplicates st filename) rest
  end.

Definition select_trace (duplicates : gmap string (list string))
  : list selection :=
  selection_init
    :: loop_trace duplicates selection_init (sorted (dict_keys duplicates)).

(** ** Effects: console output, calls into the hashing library, deletions *)

Inductive event :=
  | Print (line : string)
  | EncodeImage (image_file : string)
  | FindDuplicates (max_distance_threshold : Z)
  | OsRemove (path : string).

(** What the script uses of [os] and [pathlib].  [os_remove] returns the
    file system without the file, or the message of the [OSError]. *)
Record Platform (FS : Type) := {
  os_walk : FS → string → list (string * list string * list string);
  os_path_join : string → string → string;
  path_suffix : string → string;
  str_lower : string → string;
  os_remove : string → FS → string + FS
}.
Arguments os_walk {FS}.
Arguments os_path_join {FS}.
Arguments path_suffix {FS}.
Arguments str_lower {FS}.
Arguments os_remove {FS}.

(** The interface shared by [PHash], [DHash], [WHash] and [AHash].  Both
    methods only read; [encode_image] is [None] when the library raises. *)
Record Hasher (FS Hash : Type) := {
  encode_image : FS → string → option Hash;
  find_duplicates : gmap string Hash → Z → gmap string (list string)
}.
Arguments encode_image {FS Hash}.
Arguments find_duplicates {FS Hash}.

Inductive hash_method := phash | dhash | whash | ahash.

Record Args := {
  input_dir : string;
  method : hash_method;
  threshold : Z;
  delete_flag : bool
}.

Definition nl : string := String (ascii_of_nat 10) EmptyString.

Definition extensions : gset string :=
  {[ ".jpg"; ".jpeg"; ".png"; ".bmp"; ".tiff"; ".webp" ]}.

(** The three numbers of the result summary, lines 118-120. *)
Record summary := {
  total_processed : Z;
  unique_to_keep : Z;
  duplicates_found : Z
}.

Section Pipeline.
Context {FS Hash : Type}.
Variable platform : Platform FS.
Variable HASH_METHODS : hash_method → Hasher FS Hash.

Definition scan_file (root : string) (image_paths : list string)
    (file : string) : list string :=
  if bool_decide (str_lower platform (path_suffix platform file) ∈ extensions)
  then image_paths ++ [os_path_join platform root file]
  else image_paths.

Definition scan_dir (image_paths : list string)
    (entry : string * list string * list string) : list string :=
  let '(root, dirs, files) := entry in
  foldl (scan_file root) image_paths files.

Definition get_image_files (fs : FS) (root_dir : string)
  : list string * list event :=
  let image_paths := foldl scan_dir [] (os_walk platform fs root_dir) in
  (image_paths,
   [Print ("Scanning " ++ root_dir ++ " for images...");
    Print ("Found " ++ pretty (length image_paths) ++ " images.")]).

(** Body of the loop of [generate_encodings], lines 73-80. *)
Definition encode_step (hasher : Hasher FS Hash) (fs : FS)
    (acc : gmap string Hash * list event) (img_path : string)
  : gmap string Hash * list event :=
  let '(encodings, log) := acc in
  match encode_image hasher fs img_path with
  | Some hash_str =>
      (<[img_path := hash_str]> encodings, log ++ [EncodeImage img_path])
  | None => (encodings, log ++ [EncodeImage img_path])
  end.

Definition generate_encodings (hasher : Hasher FS Hash) (fs : FS)
    (image_paths : list string) : gmap string Hash * list event :=
  foldl (encode_step hasher fs)
        (∅, [Print "Generating image hashes..."]) image_paths.

Definition summarize (encodings : gmap string Hash) (st : selection)
  : summary :=
  {| total_processed := Z.of_nat (size encodings);
     unique_to_keep :=
       Z.of_nat (size encodings) - Z.of_nat (size (files_to_remove st));
     duplicates_found := Z.of_nat (size (files_to_remove st)) |}.

Definition delete_step (acc : FS * list event) (file_path : string)
  : FS * list event :=
  let '(fs, log) := acc in
  match os_remove platform file_path fs with
  | inr fs' =>
      (fs', log ++ [OsRemove file_path; Print ("Deleted: " ++ file_path)])
  | inl e =>
      (fs, log ++ [OsRemove file_path;
                   Print ("Error deleting " ++ file_path ++ ": " ++ e)])
  end.

Definition dry_run_step (acc : FS * list event) (file_path : string)
  : FS * list event :=
  let '(fs, log) := acc in
  (fs, log ++ [Print ("Would delete: " ++ file_path)]).

(** The result summary, lines 117-120. *)
Definition result_summary (encodings : gmap string Hash) (st : selection)
  : list event :=
  let r := summarize encodings st in
  [Print (nl ++ "--- Result Summary ---");
   Print ("Total images processed: " ++ pretty (total_processed r));
   Print ("Unique images to keep:  " ++ pretty (unique_to_keep r));
   Print ("Duplicates found:       " ++ pretty (duplicates_found r))].

Definition find_and_process_duplicates (encodings : gmap string Hash)
    (hasher : Hasher FS Hash) (threshold : Z) (delete_mode : bool) (fs : FS)
  : FS * list event :=
  let duplicates := find_duplicates hasher encodings threshold in
  let st := select duplicates in
  let log :=
    [Print "Finding duplicates..."; FindDuplicates threshold]
      ++ result_summary encodings st in
  if bool_decide (size (files_to_remove st) = 0) then (fs, log)
  else if delete_mode then
    foldl delete_step
          (fs, log ++ [Print (nl ++ "!!! DELETING DUPLICATES !!!")])
          (elements (files_to_remove st))
  else
    let '(fs', log') :=
      foldl dry_run_step
            (fs, log ++ [Print (nl ++ "--- Dry Run (Files that would be deleted) ---")])
            (elements (files_to_remove st)) in
    (fs', log' ++ [Print (nl ++ "Run with --delete to actually remove these files.")]).

Definition main (args : Args) (fs : FS) : FS * list event :=
  let hasher := HASH_METHODS (method args) in
  let '(image_paths, log1) := get_image_files fs (input_dir args) in
  match image_paths with
  | [] => (fs, log1 ++ [Print "No images found. Exiting."])
  | _ :: _ =>
      let '(encodings, log2) := generate_encodings hasher fs image_paths in
      let '(fs', log3) :=
        find_and_process_duplicates encodings hasher (threshold args)
                                    (delete_flag args) fs in
      (fs', log1 ++ log2 ++ log3)
  end.

End Pipeline.

(** ** Vocabulary of the properties *)

Definition dups_of (duplicates : gmap string (list string))
    (filename : string) : list string :=
  default [] (duplicates !! filename).

(** The kept set and the removed set have no path in common. *)
Definition separated (st : selection) : Prop :=
  kept_files st ## files_to_remove st.

(** The kept set only grows from one state to a later one. *)
Definition kept_grows (st st' : selection) : Prop :=
  kept_files st ⊆ kept_files st'.

(** Every member of the cluster lists every other member. *)
Definition mutually_referencing (duplicates : gmap string (list string))
    (cluster : gset string) : Prop :=
  ∀ a b, a ∈ cluster → b ∈ cluster → a ≠ b → b ∈ dups_of duplicates a.

Definition lowest_sorting (cluster : gset string) (m : string) : Prop :=
  m ∈ cluster ∧ ∀ a, a ∈ cluster → String.le m a.

(** The duplicate map [{A: [B, C], B: [A], C: []}]. *)
Definition three_files (A B C : string) : gmap string (list string) :=
  <[A := [B; C]]> (<[B := [A]]> (<[C := []]> ∅)).

(** [{A: [A, B]}]: [A] lists itself and nothing else lists it. *)
Definition self_first : gmap string (list string) :=
  <["A" := ["A"; "B"]]> ∅.

(** [{A: [B], B: [B]}]: [B] lists itself and is listed under [A]. *)
Definition self_listed : gmap string (list string) :=
  <["A" := ["B"]]> (<["B" := ["B"]]> ∅).

(** [{A: [B], B: [C], C: [B]}]: [B] and [C] list each other, and [A], which
    neither of them lists, lists [B]. *)
Definition asymmetric : gmap string (list string) :=
  <["A" := ["B"]]> (<["B" := ["C"]]> (<["C" := ["B"]]> ∅)).

(** The two ways an iteration of the outer loop can go. *)
Inductive visit_outcome (duplicates : gmap string (list string))
    (st : selection) (filename : string) : selection → Prop :=
  | visit_skip :
      filename ∈ files_to_remove st ∨ dups_of duplicates filename = [] →
      visit_outcome duplicates st filename st
  | visit_keep st' :
      filename ∉ files_to_remove st →
      dups_of duplicates filename ≠ [] →
      kept_files st' = {[filename]} ∪ kept_files st →
      (∀ p, p ∈ files_to_remove st' ↔
            p ∈ files_to_remove st
            ∨ (p ∈ dups_of duplicates filename ∧ p ≠ filename
               ∧ p ∉ kept_files st)) →
      visit_outcome duplicates st filename st'.

(** ** A small world to run the script in

    A file system is the list of the paths of its files, all of them found
    under the root [""]; an image hashes to the length of its path, unless
    its name starts with [x], which the hasher cannot read. *)

Module TestWorld.

Fixpoint suffix_from_last_dot (name : string) : string :=
  match name with
  | EmptyString => EmptyString
  | String c rest =>
      match suffix_from_last_dot rest with
      | EmptyString => if Ascii.eqb c "." then name else EmptyString
      | suffix => suffix
      end
  end.

Definition platform : Platform (list string) :=
  {| os_walk := λ fs root, [(root, [], fs)];
     os_path_join := λ root file,
       match root with
       | EmptyString => file
       | _ => (root ++ "/" ++ file)%string
       end;
     path_suffix := suffix_from_last_dot;
     str_lower := λ s, s;
     os_remove := λ file_path fs,
       if bool_decide (file_path ∈ fs)
       then inr (filter (λ f, f ≠ file_path) fs)
       else inl "No such file or directory" |}.

Definition near (encoding_map : gmap string nat) (threshold : Z) (h : nat)
    (k : string) : bool :=
  match encoding_map !! k with
  | Some h' => bool_decide (Z.abs (Z.of_nat h - Z.of_nat h') ≤ threshold)%Z
  | None => false
  end.

Definition hasher : Hasher (list string) nat :=
  {| encode_image := λ fs image_file,
       if bool_decide (image_file ∈ fs)
       then match image_file with
            | String "x" _ => None
            | _ => Some (String.length image_file)
            end
       else None;
     find_duplicates := λ encoding_map max_distance_threshold,
       map_imap
         (λ k h, Some (filter
                         (λ k', k' ≠ k ∧
                                near encoding_map max_distance_threshold h k')
                         (dict_keys encoding_map)))
         encoding_map |}.

Definition HASH_METHODS (m : hash_method) : Hasher (list string) nat := hasher.

Definition files : list string := ["a.jpg"; "b.png"; "notes.txt"; "x.jpg"].

Definition dry_run : Args :=
  {| input_dir := ""; method := phash; threshold := 10; delete_flag := false |}.

End TestWorld.

(** ** Vocabulary of the further properties *)

(** The paths [os.remove] was called on, in order. *)
Fixpoint remove_calls (log : list event) : list string :=
  match log with
  | [] => []
  | OsRemove path :: log' => path :: remove_calls log'
  | _ :: log' => remove_calls log'
  end.

(** Whenever [a] lists [b], [b] lists [a]. *)
Definition symmetric_lists (duplicates : gmap string (list string)) : Prop :=
  ∀ a b, b ∈ dups_of duplicates a → a ∈ dups_of duplicates b.

(** The duplicate map speaks of encoded paths only: its keys and the paths
    in its lists are keys of the encoding map. *)
Definition over_encoded {Hash} (encodings : gmap string Hash)
    (duplicates : gmap string (list string)) : Prop :=
  ∀ k l, duplicates !! k = Some l →
         k ∈ dom encodings ∧ ∀ p, p ∈ l → p ∈ dom encodings.

(** What [os.remove] does when it succeeds: the path it was given is gone
    and every other path is as it was. *)
Definition removes_one_file {FS} (platform : Platform FS)
    (file_exists : FS → string → Prop) : Prop :=
  ∀ p fs fs', os_remove platform p fs = inr fs' →
              ∀ q, file_exists fs' q ↔ file_exists fs q ∧ q ≠ p.

(** The test of line 59. *)
Definition is_image {FS} (platform : Platform FS) (file : string) : Prop :=
  str_lower platform (path_suffix platform file) ∈ extensions.

#[global] Instance is_image_dec {FS} (platform : Platform FS) (file : string) :
  Decision (is_image platform file).
Proof. unfold is_image. apply _. Defined.

(** The image paths of one entry of the walk, in the order of its files. *)
Definition images_of {FS} (platform : Platform FS)
    (entry : string * list string * list string) : list string :=
  os_path_join platform entry.1.1 <$> filter (is_image platform) entry.2.

(** A run that deletes, in the small world. *)
Definition delete_run : Args :=
  {| input_dir := ""; method := phash; threshold := 10; delete_flag := true |}.

(** Every path listed under a kept key is kept or removed. *)
Definition settled (duplicates : gmap string (list string))
    (st : selection) : Prop :=
  ∀ k p, k ∈ kept_files st → p ∈ dups_of duplicates k →
         p ∈ kept_files st ∨ p ∈ files_to_remove st.

(** A file exists, in the small world, when its path is in the list. *)
Definition listed_file (fs : list string) (q : string) : Prop := q ∈ fs.

(** A cluster: at least two paths, each of which lists every other (a lone
    path references nothing), and which no path outside the set lists, so
    that the set is a whole group and not a part of a larger one. *)
Definition closed_cluster (duplicates : gmap string (list string))
    (cluster : gset string) : Prop :=
  (∃ a b, a ∈ cluster ∧ b ∈ cluster ∧ a ≠ b)
  ∧ mutually_referencing duplicates cluster
  ∧ ∀ q p, p ∈ cluster → p ∈ dups_of duplicates q → q ∈ cluster.

(** [{A: [B], B: [A], C: [D], D: [C]}]: two clusters of two. *)
Definition two_groups : gmap string (list string) :=
  <["A" := ["B"]]> (<["B" := ["A"]]> (<["C" := ["D"]]> (<["D" := ["C"]]> ∅))).

(** Every path in a duplicate list is a key of the encoding map. *)
Definition lists_encoded {Hash} (encodings : gmap string Hash)
    (duplicates : gmap string (list string)) : Prop :=
  ∀ k l p, duplicates !! k = Some l → p ∈ l → p ∈ dom encodings.

(** The two printed counts classify the encoded paths: the unique count is
    the number of encoded paths outside the removed set and the duplicate
    count the number of encoded paths inside it. *)
Definition classifies_once {Hash} (encodings : gmap string Hash)
    (st : selection) : Prop :=
  unique_to_keep (summarize encodings st)
  = Z.of_nat (size (dom encodings ∖ files_to_remove st))
  ∧ duplicates_found (summarize encodings st)
    = Z.of_nat (size (dom encodings ∩ files_to_remove st)).

(** Encodings of [A] and [C], and the duplicate map [{A: [B]}], whose list
    names a path that was not encoded. *)
Definition two_encoded : gmap string nat :=
  <["A" := 1%nat]> (<["C" := 2%nat]> ∅).

Definition stray_listed : gmap string (list string) :=
  <["A" := ["B"]]> ∅.

(** Closes a goal from a hypothesis placing a literal in a list of other
    literals. *)
Ltac not_listed H :=
  repeat (apply elem_of_cons in H as [?|H]; [discriminate|]);
  by apply elem_of_nil in H.

(** ** The selection loop: one step *)

Section SelectionSteps.
Implicit Types (st : selection) (filename dup p : string).
Implicit Types (duplicates : gmap string (list string)).

Lemma mark_duplicate_kept filename st dup :
  kept_files (mark_duplicate filename st dup) = kept_files st.
Proof. unfold mark_duplicate. by case_match. Qed.

Lemma mark_duplicate_removed filename st dup p :
  p ∈ files_to_remove (mark_duplicate filename st dup) ↔
  p ∈ files_to_remove st ∨ (p = dup ∧ dup ≠ filename ∧ dup ∉ kept_files st).
Proof.
  unfold mark_duplicate.
  repeat case_bool_decide; simpl; set_solver.
Qed.

Lemma inner_loop_kept filename st (dups : list string) :
  kept_files (foldl (mark_duplicate filename) st dups) = kept_files st.
Proof.
  revert st. induction dups as [|dup dups IH]; intros st; simpl; [done|].
  by rewrite IH, mark_duplicate_kept.
Qed.

Lemma inner_loop_removed filename st (dups : list string) p :
  p ∈ files_to_remove (foldl (mark_duplicate filename) st dups) ↔
  p ∈ files_to_remove st ∨ (p ∈ dups ∧ p ≠ filename ∧ p ∉ kept_files st).
Proof.
  revert st. induction dups as [|dup dups IH]; intros st; simpl.
  - set_solver.
  - rewrite IH, mark_duplicate_removed, mark_duplicate_kept.
    rewrite elem_of_cons. naive_solver.
Qed.

Lemma visit_spec duplicates st filename :
  visit_outcome duplicates st filename (visit duplicates st filename).
Proof.
  unfold visit. case_bool_decide as Hrm.
  { constructor. by left. }
  fold (dups_of duplicates filename).
  destruct (dups_of duplicates filename) as [|d ds] eqn:Hd.
  { constructor. by right. }
  cbv zeta iota. apply visit_keep; [done|by rewrite Hd| |].
  - by rewrite inner_loop_kept.
  - intros p. rewrite inner_loop_removed, Hd. simpl. set_solver.
Qed.

End SelectionSteps.

(** ** The selection loop: invariants of the whole loop *)

Section SelectionLoop.
Variable duplicates : gmap string (list string).
Implicit Types (st : selection) (filename k p : string).
Implicit Types (filenames : list string).

Local Abbreviation loop := (foldl (visit duplicates)).

Lemma mark_duplicate_separated filename st dup :
  separated st → separated (mark_duplicate filename st dup).
Proof.
  unfold separated. intros Hsep p.
  rewrite mark_duplicate_kept, mark_duplicate_removed.
  intros Hk [Hr|(-> & _ & Hnk)]; [by apply (Hsep p)|done].
Qed.

Lemma visit_separated st filename :
  separated st → separated (visit duplicates st filename).
Proof.
  intros Hsep.
  destruct (visit_spec duplicates st filename) as [|st' Hrm _ Hk Hr];
    [done|].
  intros p. rewrite Hk, Hr. specialize (Hsep p). set_solver.
Qed.

Lemma visit_kept_mono st filename :
  kept_files st ⊆ kept_files (visit duplicates st filename).
Proof.
  destruct (visit_spec duplicates st filename) as [|st' _ _ Hk _];
    [done|].
  rewrite Hk. set_solver.
Qed.

Lemma visit_removed_mono st filename :
  files_to_remove st ⊆ files_to_remove (visit duplicates st filename).
Proof.
  destruct (visit_spec duplicates st filename) as [|st' _ _ _ Hr];
    [done|].
  intros p Hp. apply Hr. by left.
Qed.

Lemma loop_separated st filenames :
  separated st → separated (loop st filenames).
Proof.
  revert st. induction filenames as [|k ks IH]; intros st Hsep; simpl;
    [done|].
  by apply IH, visit_separated.
Qed.

Lemma loop_kept_mono st filenames :
  kept_files st ⊆ kept_files (loop st filenames).
Proof.
  revert st. induction filenames as [|k ks IH]; intros st; simpl; [done|].
  etrans; [apply (visit_kept_mono st k)|apply IH].
Qed.

Lemma loop_removed_mono st filenames :
  files_to_remove st ⊆ files_to_remove (loop st filenames).
Proof.
  revert st. induction filenames as [|k ks IH]; intros st; simpl; [done|].
  etrans; [apply (visit_removed_mono st k)|apply IH].
Qed.

(** A path enters [files_to_remove] only from the duplicate list of a
    different key that the loop keeps. *)
Lemma loop_removed_origin st filenames p :
  p ∈ files_to_remove (loop st filenames) →
  p ∈ files_to_remove st
  ∨ ∃ k, k ∈ filenames ∧ k ∈ kept_files (loop st filenames)
         ∧ k ≠ p ∧ p ∈ dups_of duplicates k.
Proof.
  revert st. induction filenames as [|k ks IH]; intros st; simpl;
    [by left|].
  intros [Hp|(k' & Hin & Hk' & Hne & Hd)]%IH.
  - destruct (visit_spec duplicates st k) as [|st' _ _ Hk Hr]; [by left|].
    apply Hr in Hp as [Hp|(Hd & Hne & _)]; [by left|].
    right. exists k. split_and!; [left|..|done|done].
    apply loop_kept_mono. rewrite Hk. set_solver.
  - right. exists k'. split_and!; [by right|done..].
Qed.

(** A path enters [kept_files] only as a visited key with a non-empty
    duplicate list. *)
Lemma loop_kept_origin st filenames k :
  k ∈ kept_files (loop st filenames) →
  k ∈ kept_files st ∨ (k ∈ filenames ∧ dups_of duplicates k ≠ []).
Proof.
  revert st. induction filenames as [|k' ks IH]; intros st; simpl;
    [by left|].
  intros [Hk|[Hin Hd]]%IH.
  - destruct (visit_spec duplicates st k') as [|st' _ Hd Hkept _];
      [by left|].
    rewrite Hkept in Hk.
    apply elem_of_union in Hk as [->%elem_of_singleton|Hk]; [|by left].
    right. split; [left|done].
  - right. split; [by right|done].
Qed.

(** Every visited key is removed, kept, or has nothing listed. *)
Lemma loop_visited st filenames k :
  k ∈ filenames →
  k ∈ files_to_remove (loop st filenames)
  ∨ k ∈ kept_files (loop st filenames)
  ∨ dups_of duplicates k = [].
Proof.
  revert st. induction filenames as [|k' ks IH]; intros st; simpl.
  { by intros ?%elem_of_nil. }
  intros [->|Hin]%elem_of_cons; [|by apply IH].
  destruct (visit_spec duplicates st k') as [[Hr|Hd]|st' _ _ Hkept _].
  - left. by apply loop_removed_mono.
  - by right; right.
  - right; left. apply loop_kept_mono. rewrite Hkept. set_solver.
Qed.

Lemma separated_init : separated selection_init.
Proof. unfold separated, selection_init. simpl. set_solver. Qed.

End SelectionLoop.

(** ** The sorted keys of the duplicate map *)

Lemma elem_of_dict_keys {V} (d : gmap string V) (k : string) :
  k ∈ dict_keys d ↔ is_Some (d !! k).
Proof.
  unfold dict_keys. rewrite list_elem_of_fmap. split.
  - intros ([k' v] & -> & Hin). simpl. apply elem_of_map_to_list in Hin. eauto.
  - intros [v Hv]. exists (k, v). split; [done|]. by apply elem_of_map_to_list.
Qed.

Lemma NoDup_dict_keys {V} (d : gmap string V) : NoDup (dict_keys d).
Proof. apply NoDup_fst_map_to_list. Qed.

Lemma sorted_Permutation (l : list string) : sorted l ≡ₚ l.
Proof. apply merge_sort_Permutation. Qed.

Lemma elem_of_sorted (l : list string) (k : string) : k ∈ sorted l ↔ k ∈ l.
Proof. by rewrite sorted_Permutation. Qed.

Lemma sorted_StronglySorted (l : list string) :
  StronglySorted String.le (sorted l).
Proof. apply StronglySorted_merge_sort; apply _. Qed.

(** Sorting forgets the order in which the keys were enumerated. *)
Lemma sorted_perm_eq (l1 l2 : list string) : l1 ≡ₚ l2 → sorted l1 = sorted l2.
Proof.
  intros Hperm.
  apply (StronglySorted_unique String.le); try apply sorted_StronglySorted.
  by rewrite !sorted_Permutation.
Qed.

(** In the sorted keys, whatever comes before a key sorts strictly below. *)
Lemma sorted_keys_before (l pre post : list string) (m k : string) :
  NoDup l → sorted l = pre ++ m :: post → k ∈ pre → path_lt k m.
Proof.
  intros Hnd Heq Hk.
  pose proof (sorted_StronglySorted l) as Hs. rewrite Heq in Hs.
  split.
  - eapply StronglySorted_app_1_elem_of; [done..|left].
  - intros ->. rewrite <- sorted_Permutation, Heq in Hnd.
    apply NoDup_app in Hnd as (_ & Hdisj & _).
    apply (Hdisj m Hk). left.
Qed.

(** ** The states the loop passes through *)

Section SelectionTrace.
Variable duplicates : gmap string (list string).
Implicit Types (st : selection) (filename k p : string).

Lemma scanl_last {A B} (f : A → B → A) (a : A) (l : list B) :
  last (a :: scanl f a l) = Some (foldl f a l).
Proof.
  revert a. induction l as [|x l IH]; intros a; [done|].
  change (last (f a x :: scanl f (f a x) l) = Some (foldl f (f a x) l)).
  apply IH.
Qed.

Lemma scanl_Forall {A B} (f : A → B → A) (P : A → Prop) (a : A) (l : list B) :
  (∀ a' x, P a' → P (f a' x)) → P a → Forall P (scanl f a l).
Proof.
  intros Hstep. revert a. induction l as [|x l IH]; intros a Ha; simpl;
    constructor; auto.
Qed.

Lemma visit_trace_last st filename :
  last (st :: visit_trace duplicates st filename)
  = Some (visit duplicates st filename).
Proof.
  unfold visit_trace, visit. case_bool_decide; [done|].
  destruct (default [] (duplicates !! filename)) as [|d ds]; [done|].
  cbv zeta. rewrite last_cons_cons. apply scanl_last.
Qed.

Lemma loop_trace_last st (filenames : list string) :
  last (st :: loop_trace duplicates st filenames)
  = Some (foldl (visit duplicates) st filenames).
Proof.
  revert st. induction filenames as [|k ks IH]; intros st; simpl; [done|].
  rewrite app_comm_cons, last_app.
  pose proof (IH (visit duplicates st k)) as Hlast.
  rewrite last_cons in Hlast.
  destruct (last (loop_trace duplicates (visit duplicates st k) ks)) as [s|].
  - done.
  - rewrite visit_trace_last. done.
Qed.

(** All the states of one iteration of the outer loop share the kept set
    the iteration ends with, and stay separated. *)
Lemma visit_trace_states st filename :
  separated st →
  Forall (λ s, separated s
               ∧ kept_files s = kept_files (visit duplicates st filename))
         (visit_trace duplicates st filename).
Proof.
  intros Hsep. unfold visit_trace, visit. case_bool_decide as Hrm; [done|].
  destruct (default [] (duplicates !! filename)) as [|d ds]; [done|].
  cbv zeta. rewrite inner_loop_kept.
  set (st1 := {| files_to_remove := files_to_remove st;
                 kept_files := {[filename]} ∪ kept_files st |}).
  assert (separated st1) as Hsep1.
  { unfold separated, st1 in *. simpl. set_solver. }
  constructor; [done|].
  apply scanl_Forall; [|done].
  intros s x [Hs Hk]. split.
  - by apply mark_duplicate_separated.
  - by rewrite mark_duplicate_kept.
Qed.

Lemma loop_trace_states st (filenames : list string) :
  separated st →
  Forall (λ s, separated s ∧ kept_grows st s)
         (loop_trace duplicates st filenames)
  ∧ StronglySorted kept_grows (loop_trace duplicates st filenames).
Proof.
  revert st. induction filenames as [|k ks IH]; intros st Hsep; simpl.
  { split; constructor. }
  pose proof (visit_trace_states st k Hsep) as Hv.
  destruct (IH (visit duplicates st k)) as [Hall Hsorted].
  { by apply visit_separated. }
  pose proof (visit_kept_mono duplicates st k) as Hmono.
  rewrite Forall_forall in Hv, Hall.
  split.
  - apply Forall_app. split; apply Forall_forall; intros s Hs.
    + destruct (Hv s Hs) as [? Hk]. split; [done|].
      unfold kept_grows. by rewrite Hk.
    + destruct (Hall s Hs) as [? Hk]. split; [done|].
      unfold kept_grows in *. set_solver.
  - apply StronglySorted_app_2; [|clear Hall|done].
    + intros s1 s2 Hs1 Hs2. destruct (Hv s1 Hs1) as [_ Hk1].
      destruct (Hall s2 Hs2) as [_ Hk2]. unfold kept_grows in *.
      by rewrite Hk1.
    + clear Hsorted. induction (visit_trace duplicates st k) as [|s l IHl];
        constructor.
      * apply IHl. intros s' Hs'. apply Hv. by right.
      * apply Forall_forall. intros s' Hs'. unfold kept_grows.
        destruct (Hv s) as [_ ->]; [left|].
        destruct (Hv s') as [_ ->]; [by right|]. done.
Qed.

#[global] Instance kept_grows_refl : Reflexive kept_grows.
Proof. intros st. unfold kept_grows. set_solver. Qed.

Lemma StronglySorted_lookup_le {A} (R : relation A) `{!Reflexive R}
    (l : list A) (i j : nat) (x y : A) :
  StronglySorted R l → (i ≤ j)%nat → l !! i = Some x → l !! j = Some y → R x y.
Proof.
  intros Hs. revert i j. induction Hs as [|a l Hs IH Hall];
    intros i j Hij Hi Hj; [done|].
  destruct i as [|i], j as [|j]; simpl in *; simplify_eq.
  - done.
  - rewrite Forall_forall in Hall. apply Hall.
    by eapply list_elem_of_lookup_2.
  - lia.
  - apply (IH i j); [lia|done..].
Qed.

End SelectionTrace.

(** ** Results about the selection phase *)

Lemma dups_of_elem (duplicates : gmap string (list string)) (k p : string) :
  p ∈ dups_of duplicates k ↔ ∃ l, duplicates !! k = Some l ∧ p ∈ l.
Proof.
  unfold dups_of. destruct (duplicates !! k) as [l|]; simpl.
  - naive_solver.
  - split; [by intros ?%elem_of_nil|naive_solver].
Qed.

Lemma dups_of_key (duplicates : gmap string (list string)) (k : string) :
  dups_of duplicates k ≠ [] → k ∈ dict_keys duplicates.
Proof.
  unfold dups_of. intros Hne. apply elem_of_dict_keys.
  by destruct (duplicates !! k).
Qed.

Lemma select_separated (duplicates : gmap string (list string)) :
  separated (select duplicates).
Proof. apply loop_separated, separated_init. Qed.

(** A key with something listed, which no key sorting before it lists, is
    kept: nothing removes it before its turn, and nothing can afterwards. *)
Lemma unlisted_before_kept (duplicates : gmap string (list string))
    (m : string) :
  dups_of duplicates m ≠ [] →
  (∀ q, path_lt q m → m ∉ dups_of duplicates q) →
  m ∈ kept_files (select duplicates)
  ∧ m ∉ files_to_remove (select duplicates).
Proof.
  intros Hne Hbefore.
  assert (m ∈ kept_files (select duplicates)) as Hkept.
  { pose proof (dups_of_key _ _ Hne) as Hkey.
    apply elem_of_sorted, list_elem_of_split in Hkey as (pre & post & Heq).
    unfold select, select_over. rewrite Heq, foldl_app. simpl.
    set (st1 := foldl (visit duplicates) selection_init pre).
    assert (m ∉ files_to_remove st1) as Hnr.
    { intros [Hin|(k & Hk & _ & Hkm & Hd)]%loop_removed_origin.
      - by apply not_elem_of_empty in Hin.
      - apply (Hbefore k); [|done].
        by apply (sorted_keys_before (dict_keys duplicates) pre post);
          [apply NoDup_dict_keys|..]. }
    apply loop_kept_mono.
    destruct (visit_spec duplicates st1 m) as [[?|?]|st' _ _ Hk _]; [done..|].
    rewrite Hk. set_solver. }
  split; [done|]. intros Hrm. by apply (select_separated duplicates m).
Qed.

Lemma dict_keys_insert {V} (d : gmap string V) (k : string) (v : V) :
  d !! k = None → dict_keys (<[k := v]> d) ≡ₚ k :: dict_keys d.
Proof.
  intros Hk. unfold dict_keys. by rewrite map_to_list_insert.
Qed.

Lemma path_lt_trans (a b c : string) : path_lt a b → path_lt b c → path_lt a c.
Proof.
  intros [Hab Hne] [Hbc Hne']. split; [by etrans|].
  intros ->. apply Hne. by apply (anti_symm String.le).
Qed.

Lemma three_files_sorted (A B C : string) :
  path_lt A B → path_lt B C →
  sorted (dict_keys (three_files A B C)) = [A; B; C].
Proof.
  intros HAB HBC. pose proof (path_lt_trans _ _ _ HAB HBC) as HAC.
  destruct HAB as [HAB ?], HBC as [HBC ?], HAC as [HAC ?].
  apply (StronglySorted_unique String.le); [apply sorted_StronglySorted|..].
  - repeat constructor; done.
  - rewrite sorted_Permutation. unfold three_files.
    rewrite !dict_keys_insert by by simplify_map_eq.
    unfold dict_keys. by rewrite map_to_list_empty.
Qed.


(** C1 (as the code has it): for the duplicate map {A: [B, C], B: [A],
    C: []} over three paths A < B < C, the selection phase keeps A alone and
    removes both B and C, since A lists C as well as B. *)
Theorem three_files_selection (A B C : string) :
  path_lt A B → path_lt B C →
  kept_files (select (three_files A B C)) = {[A]}
  ∧ files_to_remove (select (three_files A B C)) = {[B; C]}.
Proof.
  intros HAB HBC. pose proof (path_lt_trans _ _ _ HAB HBC) as HAC.
  unfold select, select_over. rewrite three_files_sorted by done.
  destruct HAB as [_ HAB], HBC as [_ HBC], HAC as [_ HAC].
  set (d := three_files A B C).
  assert (dups_of d A = [B; C]) as HdA.
  { unfold dups_of, d, three_files. by simplify_map_eq. }
  simpl.
  destruct (visit_spec d selection_init A) as [[Hin|Hnil]|st1 _ _ Hk Hr].
  { by apply not_elem_of_empty in Hin. }
  { by rewrite HdA in Hnil. }
  assert (∀ p, p ∈ files_to_remove st1 ↔ p = B ∨ p = C) as Hr'.
  { intros p. rewrite Hr, HdA. simpl. set_solver. }
  destruct (visit_spec d st1 B) as [_|st2 HnB _ _ _].
  2: { exfalso. apply HnB, Hr'. by left. }
  destruct (visit_spec d st1 C) as [_|st2 HnC _ _ _].
  2: { exfalso. apply HnC, Hr'. by right. }
  split.
  - rewrite Hk. simpl. set_solver.
  - apply set_eq. intros p. rewrite Hr'. set_solver.
Qed.

Lemma three_files_selection_witness :
  path_lt "A" "B" ∧ path_lt "B" "C"
  ∧ kept_files (select (three_files "A" "B" "C")) = {["A"]}
  ∧ files_to_remove (select (three_files "A" "B" "C")) = {["B"; "C"]}.
Proof.
  assert (path_lt "A" "B") as HAB by (by split).
  assert (path_lt "B" "C") as HBC by (by split).
  split; [done|]. split; [done|].
  exact (three_files_selection "A" "B" "C" HAB HBC).
Defined.

(** C1 (as the spec has it) fails: on that map the kept set is not {A, C}
    and the removed set is not {B}; C is removed. *)
Lemma three_files_not_as_claimed :
  path_lt "A" "B" ∧ path_lt "B" "C"
  ∧ ¬ (kept_files (select (three_files "A" "B" "C")) = {["A"; "C"]}
       ∧ files_to_remove (select (three_files "A" "B" "C")) = {["B"]}).
Proof.
  split; [by split|]. split; [by split|].
  intros [_ Hrm].
  assert (files_to_remove (select (three_files "A" "B" "C")) = {["B"; "C"]})
    as Hcode by (vm_compute; reflexivity).
  rewrite Hcode in Hrm.
  assert ("C" ∈ ({["B"]} : gset string)) as HC by (rewrite <- Hrm; set_solver).
  by apply elem_of_singleton in HC.
Qed.

(** C3: in every state the selection loop passes through, the last one
    included, the kept set and the removed set are disjoint; and a path that
    is in the kept set of one state is in the removed set of no later
    state. *)
Theorem kept_and_removed_disjoint (duplicates : gmap string (list string)) :
  last (select_trace duplicates) = Some (select duplicates)
  ∧ Forall (λ st, kept_files st ## files_to_remove st)
           (select_trace duplicates)
  ∧ ∀ (i j : nat) (si sj : selection) (p : string),
      (i ≤ j)%nat →
      select_trace duplicates !! i = Some si →
      select_trace duplicates !! j = Some sj →
      p ∈ kept_files si → p ∉ files_to_remove sj.
Proof.
  unfold select_trace, select, select_over.
  set (ks := sorted (dict_keys duplicates)).
  destruct (loop_trace_states duplicates selection_init ks separated_init)
    as [Hall Hsorted].
  assert (Forall separated (selection_init :: loop_trace duplicates selection_init ks))
    as Hsep.
  { constructor; [apply separated_init|].
    eapply Forall_impl; [exact Hall|]. by intros s [? _]. }
  split; [apply loop_trace_last|]. split; [exact Hsep|].
  intros i j si sj p Hij Hi Hj Hp Hrm.
  assert (kept_grows si sj) as Hgrow.
  { eapply (StronglySorted_lookup_le kept_grows); [|exact Hij|exact Hi|exact Hj].
    constructor; [done|].
    eapply Forall_impl; [exact Hall|]. by intros s [_ ?]. }
  rewrite Forall_forall in Hsep.
  apply (Hsep sj (list_elem_of_lookup_2 _ _ _ Hj) p); [|done].
  by apply Hgrow.
Qed.

Lemma kept_and_removed_disjoint_witness :
  select_trace (three_files "A" "B" "C") !! 1%nat
    = Some {| files_to_remove := ∅; kept_files := {["A"]} |}
  ∧ select_trace (three_files "A" "B" "C") !! 3%nat
    = Some {| files_to_remove := {["B"; "C"]}; kept_files := {["A"]} |}
  ∧ "A" ∉ ({["B"; "C"]} : gset string).
Proof.
  assert (select_trace (three_files "A" "B" "C") !! 1%nat
          = Some {| files_to_remove := ∅; kept_files := {["A"]} |}) as H1
    by (vm_compute; reflexivity).
  assert (select_trace (three_files "A" "B" "C") !! 3%nat
          = Some {| files_to_remove := {["B"; "C"]}; kept_files := {["A"]} |})
    as H3 by (vm_compute; reflexivity).
  split; [exact H1|]. split; [exact H3|].
  apply (proj2 (proj2 (kept_and_removed_disjoint (three_files "A" "B" "C")))
           1%nat 3%nat _ _ "A" ltac:(lia) H1 H3).
  simpl. set_solver.
Defined.

Lemma elem_of_pair (a x y : string) :
  a ∈ ({[x; y]} : gset string) ↔ a = x ∨ a = y.
Proof. set_solver. Qed.

(** C4 (as the code has it): the guard [dup != filename] protects a path
    only while its own list is processed.  A path that lists itself, and
    that no key sorting before it lists, is kept and is not removed. *)
Theorem self_listed_not_removed (duplicates : gmap string (list string))
    (p : string) :
  p ∈ dups_of duplicates p →
  (∀ q, path_lt q p → p ∉ dups_of duplicates q) →
  p ∈ kept_files (select duplicates)
  ∧ p ∉ files_to_remove (select duplicates).
Proof.
  intros Hself Hbefore. apply unlisted_before_kept; [|done].
  intros Hnil. rewrite Hnil in Hself. by apply elem_of_nil in Hself.
Qed.

Lemma self_listed_not_removed_witness :
  "A" ∈ dups_of self_first "A"
  ∧ "A" ∈ kept_files (select self_first)
  ∧ "A" ∉ files_to_remove (select self_first).
Proof.
  assert ("A" ∈ dups_of self_first "A") as Hself.
  { unfold dups_of, self_first. rewrite lookup_insert_eq. simpl. left. }
  split; [exact Hself|].
  apply (self_listed_not_removed self_first "A" Hself).
  intros q [_ Hne]. unfold dups_of, self_first.
  rewrite lookup_insert_ne by done.
  rewrite lookup_empty. simpl. by intros ?%elem_of_nil.
Defined.

(** C4 (as the spec has it) fails: in {A: [B], B: [B]} the path B lists
    itself and is removed all the same, as a duplicate of A. *)
Lemma self_listed_removed :
  "B" ∈ dups_of self_listed "B"
  ∧ "B" ∈ files_to_remove (select self_listed).
Proof.
  split.
  - assert (dups_of self_listed "B" = ["B"]) as ->
      by (vm_compute; reflexivity).
    left.
  - assert (files_to_remove (select self_listed) = {["B"]}) as ->
      by (vm_compute; reflexivity).
    by apply elem_of_singleton.
Qed.

(** Two paths that list each other while a third path lists one of them are
    only part of a group: in {A: [B], B: [C], C: [B]} the paths B and C list
    each other, B sorts lowest of the two, and B is removed (A lists it)
    while C is kept. *)
Remark open_pair_lowest_removed :
  mutually_referencing asymmetric {["B"; "C"]}
  ∧ lowest_sorting {["B"; "C"]} "B"
  ∧ "B" ∈ files_to_remove (select asymmetric)
  ∧ "B" ∉ kept_files (select asymmetric).
Proof.
  assert (files_to_remove (select asymmetric) = {["B"]}) as Hr
    by (vm_compute; reflexivity).
  assert (kept_files (select asymmetric) = {["A"; "C"]}) as Hk
    by (vm_compute; reflexivity).
  split_and!.
  - intros a b Ha Hb Hab.
    assert (dups_of asymmetric "B" = ["C"]) as HB
      by (vm_compute; reflexivity).
    assert (dups_of asymmetric "C" = ["B"]) as HC
      by (vm_compute; reflexivity).
    apply elem_of_pair in Ha as [-> | ->];
      apply elem_of_pair in Hb as [-> | ->]; rewrite ?HB, ?HC;
      [by destruct Hab|repeat constructor..|by destruct Hab].
  - split; [apply elem_of_pair; by left|]. intros a Ha.
    apply elem_of_pair in Ha as [-> | ->]; done.
  - rewrite Hr. by apply elem_of_singleton.
  - rewrite Hk. by intros [?|?]%elem_of_pair.
Qed.

(** C6: the selection depends on the duplicate map alone, not on the order
    in which its keys are enumerated: two runs over maps with the same
    entries, each enumerating the keys in its own order, compute the same
    kept set and the same removed set. *)
Theorem selection_deterministic
    (duplicates1 duplicates2 : gmap string (list string))
    (keys1 keys2 : list string) :
  (∀ k, duplicates1 !! k = duplicates2 !! k) →
  keys1 ≡ₚ dict_keys duplicates1 →
  keys2 ≡ₚ dict_keys duplicates2 →
  kept_files (select_over duplicates1 keys1)
  = kept_files (select_over duplicates2 keys2)
  ∧ files_to_remove (select_over duplicates1 keys1)
    = files_to_remove (select_over duplicates2 keys2)
  ∧ select_over duplicates1 keys1 = select duplicates1.
Proof.
  intros Heq%map_eq H1 H2. subst duplicates2.
  unfold select, select_over.
  by rewrite (sorted_perm_eq _ _ H1), (sorted_perm_eq _ _ H2).
Qed.

Lemma selection_deterministic_witness :
  select_over (three_files "A" "B" "C") ["C"; "A"; "B"]
  = select_over (three_files "A" "B" "C") ["B"; "C"; "A"].
Proof.
  assert (∀ l, sorted l = ["A"; "B"; "C"] → l ≡ₚ dict_keys (three_files "A" "B" "C"))
    as Hperm.
  { intros l Hl. rewrite <- (sorted_Permutation l), Hl.
    rewrite <- (sorted_Permutation (dict_keys _)).
    by rewrite three_files_sorted by (by split). }
  destruct (selection_deterministic (three_files "A" "B" "C")
              (three_files "A" "B" "C") ["C"; "A"; "B"] ["B"; "C"; "A"])
    as (_ & _ & H1); [done|by apply Hperm..|].
  destruct (selection_deterministic (three_files "A" "B" "C")
              (three_files "A" "B" "C") ["B"; "C"; "A"] ["C"; "A"; "B"])
    as (_ & _ & H2); [done|by apply Hperm..|].
  by rewrite H1, H2.
Defined.

(** ** The encoding pass and the action phase *)

Section PipelineFacts.
Context {FS Hash : Type}.
Variable platform : Platform FS.
Implicit Types (hasher : Hasher FS Hash) (fs : FS) (log : list event).
Implicit Types (encodings : gmap string Hash) (p : string).

Lemma encode_loop_log hasher fs encodings log (image_paths : list string) :
  (foldl (encode_step hasher fs) (encodings, log) image_paths).2
  = log ++ (EncodeImage <$> image_paths).
Proof.
  revert encodings log.
  induction image_paths as [|img_path rest IH]; intros encodings log; simpl.
  { by rewrite app_nil_r. }
  destruct (encode_image hasher fs img_path); rewrite IH;
    by rewrite <- app_assoc.
Qed.

Lemma encode_loop_lookup hasher fs encodings log (image_paths : list string) p :
  (foldl (encode_step hasher fs) (encodings, log) image_paths).1 !! p
  = if bool_decide (p ∈ image_paths)
    then match encode_image hasher fs p with
         | Some hash_str => Some hash_str
         | None => encodings !! p
         end
    else encodings !! p.
Proof.
  revert encodings log.
  induction image_paths as [|img_path rest IH]; intros encodings log.
  { case_bool_decide as Hin; [by apply elem_of_nil in Hin|done]. }
  change (foldl (encode_step hasher fs) (encodings, log) (img_path :: rest))
    with (foldl (encode_step hasher fs)
                (encode_step hasher fs (encodings, log) img_path) rest).
  unfold encode_step at 2.
  destruct (encode_image hasher fs img_path) as [h|] eqn:Henc; rewrite IH;
    destruct (decide (p = img_path)) as [->|Hne];
    rewrite ?Henc, ?lookup_insert_eq, ?lookup_insert_ne by done;
    repeat case_bool_decide; set_solver.
Qed.

Lemma dry_run_loop fs log (paths : list string) :
  foldl dry_run_step (fs, log) paths
  = (fs, log ++ ((λ p, Print ("Would delete: " ++ p)) <$> paths)).
Proof.
  revert log. induction paths as [|p rest IH]; intros log; simpl.
  { by rewrite app_nil_r. }
  by rewrite IH, <- app_assoc.
Qed.

(** The deletion loop calls [os.remove] on the given paths and no other. *)
Lemma delete_loop_removes fs log (paths : list string) p :
  OsRemove p ∈ (foldl (delete_step platform) (fs, log) paths).2
  ↔ OsRemove p ∈ log ∨ p ∈ paths.
Proof.
  revert fs log. induction paths as [|q rest IH]; intros fs log; simpl.
  { rewrite elem_of_nil. naive_solver. }
  destruct (os_remove platform q fs) as [e|fs']; rewrite IH;
    rewrite !elem_of_app, !elem_of_cons, elem_of_nil; naive_solver.
Qed.

Lemma result_summary_no_remove encodings (st : selection) p :
  OsRemove p ∉ result_summary encodings st.
Proof.
  unfold result_summary.
  rewrite !elem_of_cons, elem_of_nil. naive_solver.
Qed.

(** What a dry run of the action phase returns. *)
Lemma find_and_process_dry_run hasher encodings (threshold : Z) fs :
  let st := select (find_duplicates hasher encodings threshold) in
  find_and_process_duplicates platform encodings hasher threshold false fs
  = (fs,
     [Print "Finding duplicates..."; FindDuplicates threshold]
       ++ result_summary encodings st
       ++ if bool_decide (size (files_to_remove st) = 0) then []
          else [Print (nl ++ "--- Dry Run (Files that would be deleted) ---")]
                 ++ ((λ p, Print ("Would delete: " ++ p))
                       <$> elements (files_to_remove st))
                 ++ [Print (nl ++ "Run with --delete to actually remove these files.")]).
Proof.
  intros st. unfold find_and_process_duplicates. fold st.
  case_bool_decide; [by rewrite app_nil_r|].
  rewrite dry_run_loop. by rewrite <- !app_assoc.
Qed.

Lemma find_and_process_dry_run_no_remove hasher encodings (threshold : Z) fs p :
  OsRemove p
  ∉ (find_and_process_duplicates platform encodings hasher threshold false
                                 fs).2.
Proof.
  rewrite find_and_process_dry_run. cbn [snd]. intros Hin.
  apply elem_of_app in Hin as [Hin|Hin].
  { rewrite !elem_of_cons, elem_of_nil in Hin. naive_solver. }
  apply elem_of_app in Hin as [Hin|Hin].
  { by apply result_summary_no_remove in Hin. }
  case_bool_decide; [by apply elem_of_nil in Hin|].
  apply elem_of_app in Hin as [Hin|Hin].
  { rewrite !elem_of_cons, elem_of_nil in Hin. naive_solver. }
  apply elem_of_app in Hin as [Hin|Hin].
  { by apply list_elem_of_fmap in Hin as (q & ? & _). }
  rewrite !elem_of_cons, elem_of_nil in Hin. naive_solver.
Qed.

(** Whatever the mode, [os.remove] is called on removed paths only. *)
Lemma find_and_process_removes hasher encodings (threshold : Z)
    (delete_mode : bool) fs p :
  OsRemove p
  ∈ (find_and_process_duplicates platform encodings hasher threshold
                                 delete_mode fs).2 →
  p ∈ files_to_remove (select (find_duplicates hasher encodings threshold)).
Proof.
  destruct delete_mode.
  2: { by intros ?%find_and_process_dry_run_no_remove. }
  unfold find_and_process_duplicates.
  set (st := select (find_duplicates hasher encodings threshold)).
  assert (OsRemove p ∉ [Print "Finding duplicates..."; FindDuplicates threshold]
                         ++ result_summary encodings st) as Hhead.
  { intros [Hin|Hin]%elem_of_app.
    - rewrite !elem_of_cons, elem_of_nil in Hin. naive_solver.
    - by apply result_summary_no_remove in Hin. }
  case_bool_decide; [done|].
  intros [Hin|Hin]%delete_loop_removes.
  - apply elem_of_app in Hin as [Hin|Hin]; [done|].
    rewrite elem_of_cons, elem_of_nil in Hin. naive_solver.
  - by apply elem_of_elements in Hin.
Qed.

End PipelineFacts.

(** ** Results about the whole run *)

Lemma scan_no_match {FS} (platform : Platform FS) (image_paths : list string)
    (walk : list (string * list string * list string)) :
  Forall (λ entry,
            Forall (λ file, str_lower platform (path_suffix platform file)
                            ∉ extensions) entry.2) walk →
  foldl (scan_dir platform) image_paths walk = image_paths.
Proof.
  revert image_paths.
  induction walk as [|[[root dirs] files] walk IH]; intros image_paths Hall;
    [done|].
  apply Forall_cons in Hall as [Hfiles Hall]. simpl in *.
  rewrite <- (IH image_paths Hall) at 2. f_equal.
  clear IH Hall. revert image_paths.
  induction files as [|file files IHf]; intros image_paths; [done|].
  apply Forall_cons in Hfiles as [Hfile Hfiles]. simpl.
  unfold scan_file at 2. rewrite bool_decide_eq_false_2 by done. auto.
Qed.

(** The three numbers of the result summary are the size of the encoding
    map, that size less the size of the removed set, and the size of the
    removed set, and these are the numbers the run prints. *)
Lemma reported_counts {FS Hash} (platform : Platform FS)
    (hasher : Hasher FS Hash) (encodings : gmap string Hash) (threshold : Z)
    (delete_mode : bool) (fs : FS) :
  let st := select (find_duplicates hasher encodings threshold) in
  let r := summarize encodings st in
  (unique_to_keep r + duplicates_found r = total_processed r)%Z
  ∧ total_processed r = Z.of_nat (size encodings)
  ∧ duplicates_found r = Z.of_nat (size (files_to_remove st))
  ∧ ∃ rest,
      (find_and_process_duplicates platform encodings hasher threshold
                                   delete_mode fs).2
      = [Print "Finding duplicates..."; FindDuplicates threshold;
         Print (nl ++ "--- Result Summary ---");
         Print ("Total images processed: " ++ pretty (total_processed r));
         Print ("Unique images to keep:  " ++ pretty (unique_to_keep r));
         Print ("Duplicates found:       " ++ pretty (duplicates_found r))]
        ++ rest.
Proof.
  intros st r. split_and!; [unfold r, summarize; simpl; lia|done..|].
  unfold find_and_process_duplicates. fold st.
  case_bool_decide; [by exists []|].
  destruct delete_mode.
  - set (log := [Print "Finding duplicates..."; FindDuplicates threshold]
                  ++ result_summary encodings st).
    assert (∀ paths fs0 log0, ∃ rest,
              (foldl (delete_step platform) (fs0, log0) paths).2
              = log0 ++ rest) as Hgrow.
    { induction paths as [|q paths IH]; intros fs0 log0; simpl.
      { exists []. by rewrite app_nil_r. }
      destruct (os_remove platform q fs0) as [e|fs'];
        edestruct IH as [rest ->]; rewrite <- app_assoc; eauto. }
    destruct (Hgrow (elements (files_to_remove st)) fs
                    (log ++ [Print (nl ++ "!!! DELETING DUPLICATES !!!")]))
      as [rest ->].
    rewrite <- app_assoc. by eexists.
  - rewrite dry_run_loop. simpl. by eexists.
Qed.

(** C7: in a dry run the file system the run ends with is the one it
    started with, [os.remove] is never called, and after the summary the run
    only prints a "Would delete" line for each path in the removed set. *)
Theorem dry_run_leaves_files {FS Hash} (platform : Platform FS)
    (HASH_METHODS : hash_method → Hasher FS Hash) (args : Args) (fs : FS)
    (hasher : Hasher FS Hash) (encodings : gmap string Hash) :
  delete_flag args = false →
  let st := select (find_duplicates hasher encodings (threshold args)) in
  find_and_process_duplicates platform encodings hasher (threshold args)
                              (delete_flag args) fs
  = (fs,
     [Print "Finding duplicates..."; FindDuplicates (threshold args)]
       ++ result_summary encodings st
       ++ if bool_decide (size (files_to_remove st) = 0) then []
          else [Print (nl ++ "--- Dry Run (Files that would be deleted) ---")]
                 ++ ((λ p, Print ("Would delete: " ++ p))
                       <$> elements (files_to_remove st))
                 ++ [Print (nl ++ "Run with --delete to actually remove these files.")])
  ∧ (main platform HASH_METHODS args fs).1 = fs
  ∧ ∀ p, OsRemove p ∉ (main platform HASH_METHODS args fs).2.
Proof.
  intros Hdry st.
  unfold main. rewrite Hdry. split; [apply find_and_process_dry_run|].
  destruct (get_image_files platform fs (input_dir args)) as [image_paths log1]
    eqn:Hscan.
  assert (∀ p, OsRemove p ∉ log1) as Hlog1.
  { unfold get_image_files in Hscan. injection Hscan as _ <-.
    intros p. rewrite !elem_of_cons, elem_of_nil. naive_solver. }
  destruct image_paths as [|img rest].
  { split; [done|]. intros p. simpl.
    rewrite elem_of_app, elem_of_cons, elem_of_nil.
    specialize (Hlog1 p). naive_solver. }
  destruct (generate_encodings (HASH_METHODS (method args)) fs (img :: rest))
    as [enc log2] eqn:Henc.
  assert (log2 = Print "Generating image hashes..."
                   :: (EncodeImage <$> img :: rest)) as ->.
  { unfold generate_encodings in Henc.
    pose proof (encode_loop_log (HASH_METHODS (method args)) fs ∅
                  [Print "Generating image hashes..."] (img :: rest)) as Hlog.
    rewrite Henc in Hlog. exact Hlog. }
  pose proof (find_and_process_dry_run_no_remove platform
                (HASH_METHODS (method args)) enc (threshold args) fs) as Hact.
  rewrite find_and_process_dry_run in *. cbn [fst snd] in *.
  split; [done|]. intros p Hin.
  apply elem_of_app in Hin as [Hin|Hin]; [by apply (Hlog1 p)|].
  apply elem_of_app in Hin as [Hin|Hin]; [|by apply (Hact p)].
  apply elem_of_cons in Hin as [?|Hin]; [done|].
  by apply list_elem_of_fmap in Hin as (q & ? & _).
Qed.

Lemma dry_run_leaves_files_witness :
  delete_flag TestWorld.dry_run = false
  ∧ (main TestWorld.platform TestWorld.HASH_METHODS TestWorld.dry_run
          TestWorld.files).1 = TestWorld.files.
Proof.
  split; [reflexivity|].
  destruct (dry_run_leaves_files TestWorld.platform TestWorld.HASH_METHODS
              TestWorld.dry_run TestWorld.files TestWorld.hasher ∅ eq_refl)
    as (_ & Hfs & _).
  exact Hfs.
Defined.

(** C8: when no file the walk reports has a suffix in the allow-list, the
    scanner returns the empty list and the run prints "No images found" and
    ends: nothing is encoded, grouped, summarised or deleted, and the file
    system is as it was. *)
Theorem no_images_early_exit {FS Hash} (platform : Platform FS)
    (HASH_METHODS : hash_method → Hasher FS Hash) (args : Args) (fs : FS) :
  Forall (λ entry,
            Forall (λ file, str_lower platform (path_suffix platform file)
                            ∉ extensions) entry.2)
         (os_walk platform fs (input_dir args)) →
  (get_image_files platform fs (input_dir args)).1 = []
  ∧ main platform HASH_METHODS args fs
    = (fs, [Print ("Scanning " ++ input_dir args ++ " for images...");
            Print "Found 0 images.";
            Print "No images found. Exiting."]).
Proof.
  intros Hnone.
  assert (foldl (scan_dir platform) [] (os_walk platform fs (input_dir args))
          = []) as Hscan by by apply scan_no_match.
  unfold main, get_image_files. rewrite Hscan. done.
Qed.

Lemma no_images_early_exit_witness :
  main TestWorld.platform TestWorld.HASH_METHODS TestWorld.dry_run
       ["notes.txt"; "Makefile"]
  = (["notes.txt"; "Makefile"],
     [Print "Scanning  for images..."; Print "Found 0 images.";
      Print "No images found. Exiting."]).
Proof.
  apply no_images_early_exit.
  repeat constructor; apply (bool_decide_unpack _); vm_compute; exact I.
Defined.

(** C9: the encoder is called once on every scanned path, in order, whether
    or not earlier calls failed; the keys of the encoding map are exactly
    the scanned paths whose encoding succeeded, each mapped to its hash. *)
Theorem generate_encodings_keys {FS Hash} (hasher : Hasher FS Hash) (fs : FS)
    (image_paths : list string) :
  let r := generate_encodings hasher fs image_paths in
  (∀ p, p ∈ dom r.1
        ↔ p ∈ image_paths ∧ is_Some (encode_image hasher fs p))
  ∧ (∀ p, p ∈ image_paths → r.1 !! p = encode_image hasher fs p)
  ∧ r.2 = Print "Generating image hashes..." :: (EncodeImage <$> image_paths).
Proof.
  intros r.
  assert (∀ p, r.1 !! p = if bool_decide (p ∈ image_paths)
                          then encode_image hasher fs p else None) as Hlookup.
  { intros p. unfold r, generate_encodings. rewrite encode_loop_lookup.
    rewrite lookup_empty. by destruct (encode_image hasher fs p). }
  split_and!.
  - intros p. rewrite elem_of_dom, Hlookup.
    case_bool_decide; [naive_solver|]. split; [by intros [? ?]|naive_solver].
  - intros p Hin. rewrite Hlookup. by rewrite bool_decide_eq_true_2.
  - unfold r, generate_encodings. by rewrite encode_loop_log.
Qed.

Lemma generate_encodings_keys_witness :
  dom (generate_encodings TestWorld.hasher TestWorld.files
         ["a.jpg"; "x.jpg"; "b.png"]).1 = {["a.jpg"; "b.png"]}.
Proof.
  apply set_eq. intros p.
  rewrite (proj1 (generate_encodings_keys TestWorld.hasher TestWorld.files
                    ["a.jpg"; "x.jpg"; "b.png"]) p).
  rewrite elem_of_pair, !elem_of_cons, elem_of_nil. split.
  - intros [[->|[->|[->|[]]]] Hok]; [by left| |by right].
    by apply is_Some_None in Hok.
  - intros [-> | ->]; (split; [|by eexists]); auto.
Defined.

(** C10: every removed path is listed under a kept key other than itself;
    so a path that no duplicate list contains is never removed, and
    [os.remove] is never called on it. *)
Theorem removed_listed_under_kept {FS Hash} (platform : Platform FS)
    (hasher : Hasher FS Hash) (encodings : gmap string Hash) (threshold : Z)
    (delete_mode : bool) (fs : FS) (duplicates : gmap string (list string)) :
  (∀ p, p ∈ files_to_remove (select duplicates) →
        ∃ k l, k ∈ kept_files (select duplicates) ∧ k ≠ p
               ∧ duplicates !! k = Some l ∧ p ∈ l)
  ∧ (∀ p, (∀ k l, duplicates !! k = Some l → p ∉ l) →
          p ∉ files_to_remove (select duplicates))
  ∧ (duplicates = find_duplicates hasher encodings threshold →
     ∀ p, (∀ k l, duplicates !! k = Some l → p ∉ l) →
          OsRemove p
          ∉ (find_and_process_duplicates platform encodings hasher threshold
                                         delete_mode fs).2).
Proof.
  assert (∀ p, p ∈ files_to_remove (select duplicates) →
               ∃ k l, k ∈ kept_files (select duplicates) ∧ k ≠ p
                      ∧ duplicates !! k = Some l ∧ p ∈ l) as Horigin.
  { intros p [Hin|(k & _ & Hk & Hne & Hd)]%loop_removed_origin.
    - by apply not_elem_of_empty in Hin.
    - apply dups_of_elem in Hd as (l & Hl & Hin). eauto 10. }
  assert (∀ p, (∀ k l, duplicates !! k = Some l → p ∉ l) →
               p ∉ files_to_remove (select duplicates)) as Hunlisted.
  { intros p Hnone (k & l & _ & _ & Hl & Hin)%Horigin. by apply (Hnone k l). }
  split; [exact Horigin|]. split; [exact Hunlisted|].
  intros -> p Hnone Hin%find_and_process_removes. by apply (Hunlisted p).
Qed.

Lemma removed_listed_under_kept_witness :
  "x.jpg" ∉ files_to_remove (select (three_files "A" "B" "C")).
Proof.
  apply (proj1 (proj2 (removed_listed_under_kept TestWorld.platform
                         TestWorld.hasher ∅ 10 true TestWorld.files
                         (three_files "A" "B" "C")))).
  intros k l Hl Hin. unfold three_files in Hl.
  apply lookup_insert_Some in Hl as [[_ <-]|[_ Hl]]; [not_listed Hin|].
  apply lookup_insert_Some in Hl as [[_ <-]|[_ Hl]]; [not_listed Hin|].
  apply lookup_insert_Some in Hl as [[_ <-]|[_ Hl]]; [not_listed Hin|].
  by rewrite lookup_empty in Hl.
Defined.

(** In the small world, a run with [--delete] does delete the duplicate. *)
Example delete_run_removes :
  (main TestWorld.platform TestWorld.HASH_METHODS
        {| input_dir := ""; method := phash; threshold := 10;
           delete_flag := true |}
        TestWorld.files).1
  = ["a.jpg"; "notes.txt"; "x.jpg"].
Proof. vm_compute. reflexivity. Qed.

(** The printed unique count is the encoded count less the removed count; it
    is not the size of the kept set, which holds only the keys that had
    something listed. *)
Remark unique_count_is_not_kept_size :
  let encodings : gmap string nat := <["A" := 1%nat]> (<["B" := 9%nat]> ∅) in
  let st := select (<["A" := []]> (<["B" := []]> ∅)) in
  unique_to_keep (summarize encodings st) = 2%Z
  ∧ size (kept_files st) = 0%nat.
Proof. split; vm_compute; reflexivity. Qed.

(** ** Further results about the selection phase *)

Lemma NoDup_sorted_keys (duplicates : gmap string (list string)) :
  NoDup (sorted (dict_keys duplicates)).
Proof. rewrite sorted_Permutation. apply NoDup_dict_keys. Qed.

Lemma dups_of_nonempty (duplicates : gmap string (list string)) (k : string) :
  dups_of duplicates k ≠ [] ↔ ∃ l, duplicates !! k = Some l ∧ l ≠ [].
Proof.
  unfold dups_of. destruct (duplicates !! k) as [l|]; simpl; naive_solver.
Qed.

(** X1: a kept path is a key of the duplicate map with a non-empty list, and
    is not removed. *)
Theorem kept_are_listing_keys (duplicates : gmap string (list string))
    (k : string) :
  k ∈ kept_files (select duplicates) →
  (∃ l, duplicates !! k = Some l ∧ l ≠ [])
  ∧ k ∉ files_to_remove (select duplicates).
Proof.
  intros Hk. split.
  - apply dups_of_nonempty.
    apply loop_kept_origin in Hk as [Hin|[_ Hne]]; [|done].
    by apply not_elem_of_empty in Hin.
  - intros Hr. by apply (select_separated duplicates k).
Qed.

Lemma kept_are_listing_keys_witness :
  "A" ∈ kept_files (select asymmetric)
  ∧ (∃ l, asymmetric !! "A" = Some l ∧ l ≠ [])
  ∧ "A" ∉ files_to_remove (select asymmetric).
Proof.
  assert ("A" ∈ kept_files (select asymmetric)) as Hk.
  { assert (kept_files (select asymmetric) = {["A"; "C"]}) as ->
      by (vm_compute; reflexivity).
    apply elem_of_pair. by left. }
  split; [exact Hk|]. exact (kept_are_listing_keys asymmetric "A" Hk).
Defined.

(** X2: a key with a non-empty list ends up in exactly one of the kept set
    and the removed set. *)
Theorem listing_keys_classified (duplicates : gmap string (list string))
    (k : string) (l : list string) :
  duplicates !! k = Some l → l ≠ [] →
  (k ∈ kept_files (select duplicates)
   ∧ k ∉ files_to_remove (select duplicates))
  ∨ (k ∈ files_to_remove (select duplicates)
     ∧ k ∉ kept_files (select duplicates)).
Proof.
  intros Hl Hne.
  assert (k ∈ sorted (dict_keys duplicates)) as Hin.
  { apply elem_of_sorted, elem_of_dict_keys. eauto. }
  pose proof (select_separated duplicates k) as Hsep.
  destruct (loop_visited duplicates selection_init _ k Hin)
    as [Hr|[Hk|Hnil]].
  - right. split; [done|]. intros Hk. by apply Hsep.
  - left. split; [done|]. intros Hr. by apply Hsep.
  - unfold dups_of in Hnil. rewrite Hl in Hnil. done.
Qed.

Lemma listing_keys_classified_witness :
  ("B" ∈ kept_files (select asymmetric)
   ∧ "B" ∉ files_to_remove (select asymmetric))
  ∨ ("B" ∈ files_to_remove (select asymmetric)
     ∧ "B" ∉ kept_files (select asymmetric)).
Proof.
  apply (listing_keys_classified asymmetric "B" ["C"]).
  - vm_compute. reflexivity.
  - discriminate.
Defined.

Lemma visit_settled (duplicates : gmap string (list string))
    (st : selection) (filename : string) :
  settled duplicates st → settled duplicates (visit duplicates st filename).
Proof.
  intros Hst.
  destruct (visit_spec duplicates st filename) as [|st' _ _ Hk Hr]; [done|].
  intros k p. rewrite !Hk, Hr, !elem_of_union, !elem_of_singleton.
  intros [->|Hkept] Hp.
  - destruct (decide (p = filename)) as [->|Hne]; [by left; left|].
    destruct (decide (p ∈ kept_files st)); [by left; right|].
    right. right. done.
  - destruct (Hst k p Hkept Hp); [left; by right|right; by left].
Qed.

Lemma loop_settled (duplicates : gmap string (list string))
    (st : selection) (filenames : list string) :
  settled duplicates st →
  settled duplicates (foldl (visit duplicates) st filenames).
Proof.
  revert st. induction filenames as [|k ks IH]; intros st Hst; simpl;
    [done|].
  by apply IH, visit_settled.
Qed.

(** X3: every path listed under a kept key is itself kept or removed: no
    duplicate of a kept file is left out of both sets. *)
Theorem listed_under_kept_settled (duplicates : gmap string (list string))
    (k p : string) :
  k ∈ kept_files (select duplicates) →
  p ∈ dups_of duplicates k →
  p ∈ kept_files (select duplicates)
  ∨ p ∈ files_to_remove (select duplicates).
Proof.
  apply loop_settled. intros k' p' Hin. by apply not_elem_of_empty in Hin.
Qed.

Lemma listed_under_kept_settled_witness :
  "B" ∈ kept_files (select asymmetric)
  ∨ "B" ∈ files_to_remove (select asymmetric).
Proof.
  apply (listed_under_kept_settled asymmetric "A" "B").
  - assert (kept_files (select asymmetric) = {["A"; "C"]}) as ->
      by (vm_compute; reflexivity).
    apply elem_of_pair. by left.
  - assert (dups_of asymmetric "A" = ["B"]) as -> by (vm_compute; reflexivity).
    left.
Defined.

Lemma path_lt_asym (a b : string) : path_lt a b → path_lt b a → False.
Proof. intros [Hab Hne] [Hba _]. apply Hne. by apply (anti_symm String.le). Qed.

(** A kept key does not list a kept key that sorts after it. *)
Lemma kept_not_listing_later (duplicates : gmap string (list string))
    (k1 k2 : string) :
  k1 ∈ kept_files (select duplicates) →
  k2 ∈ kept_files (select duplicates) →
  path_lt k1 k2 →
  k2 ∉ dups_of duplicates k1.
Proof.
  intros Hk1 Hk2 Hlt Hlisted.
  pose proof (NoDup_sorted_keys duplicates) as Hnd.
  assert (k1 ∈ sorted (dict_keys duplicates)) as Hin.
  { apply loop_kept_origin in Hk1 as [Hin|[Hin _]]; [|done].
    by apply not_elem_of_empty in Hin. }
  apply list_elem_of_split in Hin as (pre & post & Heq).
  assert (∀ k, k ∈ pre → path_lt k k1) as Hpre.
  { intros k Hk.
    by apply (sorted_keys_before (dict_keys duplicates) pre post);
      [apply NoDup_dict_keys|..]. }
  rewrite Heq in Hnd. apply NoDup_app in Hnd as (_ & Hdisj & Hnd').
  apply NoDup_cons in Hnd' as [Hpost _].
  set (st1 := foldl (visit duplicates) selection_init pre).
  assert (select duplicates
          = foldl (visit duplicates) (visit duplicates st1 k1) post) as Hsel.
  { unfold select, select_over. by rewrite Heq, foldl_app. }
  assert (∀ k, k ∈ kept_files st1 → k ∈ pre) as Hkept1.
  { intros k [Hk|[Hk _]]%loop_kept_origin; [|done].
    by apply not_elem_of_empty in Hk. }
  revert Hsel.
  destruct (visit_spec duplicates st1 k1) as [_|st' _ _ Hk Hr]; intros Hsel.
  - rewrite Hsel in Hk1.
    apply loop_kept_origin in Hk1 as [Hk1|[Hk1 _]]; [|done].
    apply (Hdisj k1); [by apply Hkept1|left].
  - apply (select_separated duplicates k2 Hk2).
    rewrite Hsel. apply loop_removed_mono, Hr. right.
    split_and!; [done| |].
    + intros ->. by destruct Hlt.
    + intros Hin%Hkept1%Hpre. by apply (path_lt_asym k1 k2).
Qed.

(** X4: a kept path never lists a kept path that sorts after it; when the
    lists are symmetric, no two kept paths list each other at all. *)
Theorem kept_not_mutual_duplicates (duplicates : gmap string (list string))
    (k1 k2 : string) :
  k1 ∈ kept_files (select duplicates) →
  k2 ∈ kept_files (select duplicates) →
  (path_lt k1 k2 → k2 ∉ dups_of duplicates k1)
  ∧ (symmetric_lists duplicates → k1 ≠ k2 → k2 ∉ dups_of duplicates k1).
Proof.
  intros Hk1 Hk2. split; [by apply kept_not_listing_later|].
  intros Hsym Hne Hlisted.
  destruct (total String.le k1 k2) as [Hle|Hle].
  - by apply (kept_not_listing_later duplicates k1 k2).
  - apply (kept_not_listing_later duplicates k2 k1); [done..| |by apply Hsym].
    split; [done|]. by intros ->.
Qed.

Lemma kept_not_mutual_duplicates_witness :
  "A" ∈ kept_files (select asymmetric)
  ∧ "C" ∈ kept_files (select asymmetric)
  ∧ "C" ∉ dups_of asymmetric "A".
Proof.
  assert (kept_files (select asymmetric) = {["A"; "C"]}) as Hkept
    by (vm_compute; reflexivity).
  assert ("A" ∈ kept_files (select asymmetric)) as HA.
  { rewrite Hkept. apply elem_of_pair. by left. }
  assert ("C" ∈ kept_files (select asymmetric)) as HC.
  { rewrite Hkept. apply elem_of_pair. by right. }
  split; [exact HA|]. split; [exact HC|].
  apply (proj1 (kept_not_mutual_duplicates asymmetric "A" "C" HA HC)).
  by split.
Defined.

(** X5: the lowest-sorting key that has anything listed is always kept. *)
Theorem lowest_listing_key_kept (duplicates : gmap string (list string))
    (m : string) :
  dups_of duplicates m ≠ [] →
  (∀ q, path_lt q m → dups_of duplicates q = []) →
  m ∈ kept_files (select duplicates)
  ∧ m ∉ files_to_remove (select duplicates).
Proof.
  intros Hne Hlow. apply unlisted_before_kept; [done|].
  intros q Hq. rewrite (Hlow q Hq). apply not_elem_of_nil.
Qed.

Lemma lowest_listing_key_kept_witness :
  "B" ∈ kept_files (select (<["A" := []]> self_listed))
  ∧ "B" ∉ files_to_remove (select (<["A" := []]> self_listed)).
Proof.
  apply lowest_listing_key_kept.
  - assert (dups_of (<["A" := []]> self_listed) "B" = ["B"]) as ->
      by (vm_compute; reflexivity).
    discriminate.
  - intros q [Hle Hne]. unfold dups_of.
    destruct (decide (q = "A")) as [->|HA].
    { by rewrite lookup_insert_eq. }
    rewrite lookup_insert_ne by done. unfold self_listed.
    rewrite lookup_insert_ne by done.
    rewrite lookup_insert_ne by (by intros <-).
    by rewrite lookup_empty.
Defined.

(** ** Further results about the action phase *)

Lemma remove_calls_app (log1 log2 : list event) :
  remove_calls (log1 ++ log2) = remove_calls log1 ++ remove_calls log2.
Proof.
  induction log1 as [|[] log1 IH]; simpl; [done|by rewrite ?IH..].
Qed.

Lemma elem_of_remove_calls (log : list event) (p : string) :
  p ∈ remove_calls log ↔ OsRemove p ∈ log.
Proof.
  induction log as [|ev log IH]; simpl.
  { by rewrite !elem_of_nil. }
  destruct ev; rewrite ?elem_of_cons, IH, ?elem_of_cons; naive_solver.
Qed.

Lemma remove_calls_fmap_print (f : string → string) (l : list string) :
  remove_calls ((λ p, Print (f p)) <$> l) = [].
Proof. by induction l. Qed.

Lemma elements_size_0 (X : gset string) : size X = 0%nat → elements X = [].
Proof. intros Hsize. by apply nil_length_inv. Qed.

Section ActionFacts.
Context {FS Hash : Type}.
Variable platform : Platform FS.
Implicit Types (hasher : Hasher FS Hash) (fs : FS) (log : list event).
Implicit Types (encodings : gmap string Hash) (p : string).

Lemma delete_loop_calls fs log (paths : list string) :
  remove_calls (foldl (delete_step platform) (fs, log) paths).2
  = remove_calls log ++ paths.
Proof.
  revert fs log. induction paths as [|q rest IH]; intros fs log; simpl.
  { by rewrite app_nil_r. }
  destruct (os_remove platform q fs) as [e|fs']; rewrite IH, remove_calls_app;
    simpl; by rewrite <- app_assoc.
Qed.

(** What the deletion loop leaves of the file system, for an [os.remove]
    that removes the one file it is given. *)
Lemma delete_loop_files (file_exists : FS → string → Prop) fs log
    (paths : list string) :
  removes_one_file platform file_exists →
  let r := foldl (delete_step platform) (fs, log) paths in
  (∀ q, file_exists r.1 q → file_exists fs q)
  ∧ (∀ q, q ∉ paths → file_exists fs q → file_exists r.1 q)
  ∧ (∀ e, e ∈ log → e ∈ r.2)
  ∧ (∀ p, p ∈ paths →
          (¬ file_exists r.1 p ∧ Print ("Deleted: " ++ p) ∈ r.2)
          ∨ ∃ e, Print ("Error deleting " ++ p ++ ": " ++ e) ∈ r.2).
Proof.
  intros Hlaw. revert fs log.
  induction paths as [|q rest IH]; intros fs log; simpl.
  { split_and!; [done..|]. by intros p ?%elem_of_nil. }
  destruct (os_remove platform q fs) as [e|fs'] eqn:Hrm.
  - destruct (IH fs (log ++ [OsRemove q;
                              Print ("Error deleting " ++ q ++ ": " ++ e)]))
      as (Hsub & Hkeep & Hlog & Hrep).
    split_and!; [done| | |].
    + intros x Hx. apply Hkeep. by apply not_elem_of_cons in Hx as [_ ?].
    + intros ev Hev. apply Hlog, elem_of_app. by left.
    + intros p [->|Hp]%elem_of_cons; [|by apply Hrep].
      right. exists e. apply Hlog, elem_of_app. right. right. left.
  - destruct (IH fs' (log ++ [OsRemove q; Print ("Deleted: " ++ q)]))
      as (Hsub & Hkeep & Hlog & Hrep).
    pose proof (Hlaw q fs fs' Hrm) as Hfs'.
    split_and!.
    + intros x Hx%Hsub. by apply Hfs' in Hx as [? _].
    + intros x Hx Hex. apply not_elem_of_cons in Hx as [Hne Hx].
      apply Hkeep; [done|]. by apply Hfs'.
    + intros ev Hev. apply Hlog, elem_of_app. by left.
    + intros p [->|Hp]%elem_of_cons; [|by apply Hrep].
      left. split.
      * intros Hx%Hsub. by apply Hfs' in Hx as [_ ?].
      * apply Hlog, elem_of_app. right. right. left.
Qed.

End ActionFacts.

(** X6: when no duplicate list names a path other than its own key, nothing
    is removed, the unique count is the encoded count, and the run stops
    after the summary whatever the mode: no file is touched. *)
Theorem nothing_listed_nothing_done {FS Hash} (platform : Platform FS)
    (hasher : Hasher FS Hash) (encodings : gmap string Hash) (threshold : Z)
    (delete_mode : bool) (fs : FS) :
  (∀ k p, p ∈ dups_of (find_duplicates hasher encodings threshold) k →
          p = k) →
  let st := select (find_duplicates hasher encodings threshold) in
  files_to_remove st = ∅
  ∧ unique_to_keep (summarize encodings st) = Z.of_nat (size encodings)
  ∧ find_and_process_duplicates platform encodings hasher threshold
                                delete_mode fs
    = (fs, [Print "Finding duplicates..."; FindDuplicates threshold]
             ++ result_summary encodings st).
Proof.
  intros Hself st.
  assert (files_to_remove st = ∅) as Hnone.
  { apply set_eq. intros p. split; [|by intros ?%not_elem_of_empty].
    intros [Hin|(k & _ & _ & Hne & Hp)]%loop_removed_origin; [done|].
    by apply Hself in Hp. }
  split; [done|]. split.
  - unfold summarize. simpl. rewrite Hnone, size_empty. lia.
  - unfold find_and_process_duplicates. fold st.
    rewrite Hnone, size_empty. done.
Qed.

Lemma nothing_listed_nothing_done_witness :
  (find_and_process_duplicates TestWorld.platform
     (<["a.jpg" := 5%nat]> (<["b.png" := 50%nat]> ∅)) TestWorld.hasher 10 true
     TestWorld.files).1 = TestWorld.files.
Proof.
  destruct (nothing_listed_nothing_done TestWorld.platform TestWorld.hasher
              (<["a.jpg" := 5%nat]> (<["b.png" := 50%nat]> ∅)) 10 true
              TestWorld.files) as (_ & _ & ->); [|done].
  assert (find_duplicates TestWorld.hasher
            (<["a.jpg" := 5%nat]> (<["b.png" := 50%nat]> ∅)) 10
          = <["a.jpg" := []]> (<["b.png" := []]> ∅)) as ->
    by (vm_compute; reflexivity).
  intros k p (l & Hl & Hp)%dups_of_elem.
  apply lookup_insert_Some in Hl as [[_ <-]|[_ Hl]]; [not_listed Hp|].
  apply lookup_insert_Some in Hl as [[_ <-]|[_ Hl]]; [not_listed Hp|].
  by rewrite lookup_empty in Hl.
Defined.

(** X7: in delete mode [os.remove] is called on the paths of the removed
    set, once each and on no other path, whether or not earlier deletions
    failed; and every one of them is reported, as deleted or as an error. *)
Theorem delete_calls_exactly_removed {FS Hash} (platform : Platform FS)
    (hasher : Hasher FS Hash) (encodings : gmap string Hash) (threshold : Z)
    (fs : FS) :
  let st := select (find_duplicates hasher encodings threshold) in
  let log := (find_and_process_duplicates platform encodings hasher threshold
                                          true fs).2 in
  remove_calls log = elements (files_to_remove st)
  ∧ NoDup (remove_calls log)
  ∧ ∀ p, p ∈ files_to_remove st →
         Print ("Deleted: " ++ p) ∈ log
         ∨ ∃ e, Print ("Error deleting " ++ p ++ ": " ++ e) ∈ log.
Proof.
  intros st log.
  assert (remove_calls log = elements (files_to_remove st)) as Hcalls.
  { unfold log, find_and_process_duplicates. fold st.
    case_bool_decide as Hsize.
    - by rewrite (elements_size_0 _ Hsize).
    - by rewrite delete_loop_calls, !remove_calls_app. }
  split; [done|]. split; [rewrite Hcalls; apply NoDup_elements|].
  intros p Hp. unfold log, find_and_process_duplicates. fold st.
  case_bool_decide as Hsize.
  { apply size_empty_inv in Hsize. set_solver. }
  set (start := ([Print "Finding duplicates..."; FindDuplicates threshold]
                   ++ result_summary encodings st)
                  ++ [Print (nl ++ "!!! DELETING DUPLICATES !!!")]).
  assert (∀ paths fs0 log0 q, q ∈ paths →
            Print ("Deleted: " ++ q)
              ∈ (foldl (delete_step platform) (fs0, log0) paths).2
            ∨ ∃ e, Print ("Error deleting " ++ q ++ ": " ++ e)
                     ∈ (foldl (delete_step platform) (fs0, log0) paths).2)
    as Hrep.
  { assert (∀ paths fs0 log0 ev, ev ∈ log0 →
              ev ∈ (foldl (delete_step platform) (fs0, log0) paths).2)
      as Hgrow.
    { induction paths as [|x paths IH]; intros fs0 log0 ev Hev; simpl;
        [done|].
      destruct (os_remove platform x fs0); apply IH, elem_of_app; by left. }
    induction paths as [|x paths IH]; intros fs0 log0 q Hq; simpl.
    { by apply elem_of_nil in Hq. }
    apply elem_of_cons in Hq as [->|Hq].
    - destruct (os_remove platform x fs0) as [e|fs'].
      + right. exists e. apply Hgrow, elem_of_app. right. right. left.
      + left. apply Hgrow, elem_of_app. right. right. left.
    - destruct (os_remove platform x fs0); by apply IH. }
  apply Hrep. by apply elem_of_elements.
Qed.

Lemma delete_calls_exactly_removed_witness :
  remove_calls
    (find_and_process_duplicates TestWorld.platform
       (<["a.jpg" := 5%nat]> (<["b.png" := 5%nat]> ∅)) TestWorld.hasher 10
       true TestWorld.files).2 = ["b.png"].
Proof.
  rewrite (proj1 (delete_calls_exactly_removed TestWorld.platform
                    TestWorld.hasher
                    (<["a.jpg" := 5%nat]> (<["b.png" := 5%nat]> ∅)) 10
                    TestWorld.files)).
  vm_compute. reflexivity.
Defined.

Lemma would_delete_not_literal (p : string) (c : ascii) (s : string) :
  c ≠ "W"%char → String c s ≠ ("Would delete: " ++ p)%string.
Proof. intros Hc Heq. apply Hc. by injection Heq. Qed.

(** X8: a dry run previews the deletion: the paths it prints as "Would
    delete" are exactly the paths a run with [--delete] on the same input
    calls [os.remove] on. *)
Theorem dry_run_previews_delete {FS Hash} (platform : Platform FS)
    (hasher : Hasher FS Hash) (encodings : gmap string Hash) (threshold : Z)
    (fs : FS) (p : string) :
  Print ("Would delete: " ++ p)
    ∈ (find_and_process_duplicates platform encodings hasher threshold false
                                   fs).2
  ↔ p ∈ remove_calls
          (find_and_process_duplicates platform encodings hasher threshold
                                       true fs).2.
Proof.
  set (st := select (find_duplicates hasher encodings threshold)).
  assert (remove_calls
            (find_and_process_duplicates platform encodings hasher threshold
                                         true fs).2
          = elements (files_to_remove st)) as ->.
  { unfold find_and_process_duplicates. fold st.
    case_bool_decide as Hsize.
    - by rewrite (elements_size_0 _ Hsize).
    - by rewrite delete_loop_calls, !remove_calls_app. }
  rewrite find_and_process_dry_run. fold st. cbn [snd].
  assert (∀ c s, c ≠ "W"%char →
                 Print ("Would delete: " ++ p) ≠ Print (String c s)) as Hlit.
  { intros c s Hc [= Heq]. by apply (would_delete_not_literal p c s). }
  split.
  - intros Hin.
    apply elem_of_app in Hin as [Hin|Hin].
    { rewrite !elem_of_cons, elem_of_nil in Hin.
      destruct Hin as [Hin|[Hin|[]]]; [|done]. by apply Hlit in Hin. }
    apply elem_of_app in Hin as [Hin|Hin].
    { unfold result_summary, nl in Hin.
      rewrite !elem_of_cons, elem_of_nil in Hin.
      destruct Hin as [Hin|[Hin|[Hin|[Hin|[]]]]]; by apply Hlit in Hin. }
    case_bool_decide; [by apply elem_of_nil in Hin|].
    apply elem_of_app in Hin as [Hin|Hin].
    { unfold nl in Hin. rewrite elem_of_cons, elem_of_nil in Hin.
      destruct Hin as [Hin|[]]. by apply Hlit in Hin. }
    apply elem_of_app in Hin as [Hin|Hin].
    + apply list_elem_of_fmap in Hin as (q & [= Heq] & Hq).
      apply (inj (String.app "")) in Heq. by subst.
    + unfold nl in Hin. rewrite elem_of_cons, elem_of_nil in Hin.
      destruct Hin as [Hin|[]]. by apply Hlit in Hin.
  - intros Hin.
    rewrite bool_decide_eq_false_2.
    2: { intros Hsize. rewrite (elements_size_0 _ Hsize) in Hin.
         by apply elem_of_nil in Hin. }
    rewrite !elem_of_app. right. right. right. left.
    apply list_elem_of_fmap. by exists p.
Qed.

(** X9: with an [os.remove] that removes the one file it is given, a run in
    delete mode creates no file and touches no path outside the removed set;
    in particular every kept file that existed still exists.  Every removed
    path is gone afterwards and reported as deleted, unless its deletion
    failed and was reported as an error. *)
Theorem delete_touches_only_removed {FS Hash} (platform : Platform FS)
    (file_exists : FS → string → Prop) (hasher : Hasher FS Hash)
    (encodings : gmap string Hash) (threshold : Z) (fs : FS) :
  removes_one_file platform file_exists →
  let st := select (find_duplicates hasher encodings threshold) in
  let r := find_and_process_duplicates platform encodings hasher threshold
                                       true fs in
  (∀ q, file_exists r.1 q → file_exists fs q)
  ∧ (∀ q, q ∉ files_to_remove st → file_exists fs q → file_exists r.1 q)
  ∧ (∀ k, k ∈ kept_files st → file_exists fs k → file_exists r.1 k)
  ∧ (∀ p, p ∈ files_to_remove st →
          (¬ file_exists r.1 p ∧ Print ("Deleted: " ++ p) ∈ r.2)
          ∨ ∃ e, Print ("Error deleting " ++ p ++ ": " ++ e) ∈ r.2).
Proof.
  intros Hlaw st r.
  assert ((∀ q, file_exists r.1 q → file_exists fs q)
          ∧ (∀ q, q ∉ files_to_remove st →
                  file_exists fs q → file_exists r.1 q)
          ∧ (∀ p, p ∈ files_to_remove st →
                  (¬ file_exists r.1 p ∧ Print ("Deleted: " ++ p) ∈ r.2)
                  ∨ ∃ e, Print ("Error deleting " ++ p ++ ": " ++ e) ∈ r.2))
    as (Hsub & Hkeep & Hrep).
  { unfold r, find_and_process_duplicates. fold st.
    case_bool_decide as Hsize.
    { apply size_empty_inv in Hsize. split_and!; [done..|]. set_solver. }
    destruct (delete_loop_files platform file_exists fs
                (([Print "Finding duplicates..."; FindDuplicates threshold]
                    ++ result_summary encodings st)
                   ++ [Print (nl ++ "!!! DELETING DUPLICATES !!!")])
                (elements (files_to_remove st)) Hlaw)
      as (Hsub & Hkeep & _ & Hrep).
    split_and!; [done| |].
    - intros q Hq. apply Hkeep. by rewrite elem_of_elements.
    - intros p Hp. apply Hrep. by rewrite elem_of_elements. }
  split_and!; [done..| |done].
  intros k Hk. apply Hkeep. intros Hr.
  by apply (select_separated (find_duplicates hasher encodings threshold) k).
Qed.

Lemma listed_file_removes_one :
  removes_one_file TestWorld.platform listed_file.
Proof.
  intros p fs fs' Hrm q. unfold listed_file. simpl in Hrm.
  case_bool_decide; [|done]. injection Hrm as <-.
  rewrite list_elem_of_filter. naive_solver.
Qed.

Lemma delete_touches_only_removed_witness :
  listed_file TestWorld.files "a.jpg"
  ∧ listed_file
      (find_and_process_duplicates TestWorld.platform
         (<["a.jpg" := 5%nat]> (<["b.png" := 5%nat]> ∅)) TestWorld.hasher 10
         true TestWorld.files).1 "a.jpg".
Proof.
  assert (listed_file TestWorld.files "a.jpg") as Hex by left.
  split; [exact Hex|].
  destruct (delete_touches_only_removed TestWorld.platform listed_file
              TestWorld.hasher (<["a.jpg" := 5%nat]> (<["b.png" := 5%nat]> ∅))
              10 TestWorld.files listed_file_removes_one)
    as (_ & _ & Hkept & _).
  apply Hkept; [|exact Hex].
  assert (kept_files
            (select (find_duplicates TestWorld.hasher
                       (<["a.jpg" := 5%nat]> (<["b.png" := 5%nat]> ∅)) 10))
          = {["a.jpg"]}) as -> by (vm_compute; reflexivity).
  by apply elem_of_singleton.
Defined.

(** ** Further results about the scanner, the encoder and the whole run *)

Lemma scan_files_filter {FS} (platform : Platform FS) (root : string)
    (image_paths files : list string) :
  foldl (scan_file platform root) image_paths files
  = image_paths
      ++ (os_path_join platform root <$> filter (is_image platform) files).
Proof.
  revert image_paths.
  induction files as [|file files IH]; intros image_paths; simpl.
  { by rewrite app_nil_r. }
  rewrite IH. unfold scan_file. case_bool_decide as Himg.
  - rewrite filter_cons_True by done. simpl. by rewrite <- app_assoc.
  - by rewrite filter_cons_False by done.
Qed.

Lemma scan_dirs_concat {FS} (platform : Platform FS)
    (image_paths : list string)
    (walk : list (string * list string * list string)) :
  foldl (scan_dir platform) image_paths walk
  = image_paths ++ concat (images_of platform <$> walk).
Proof.
  revert image_paths.
  induction walk as [|[[root dirs] files] walk IH]; intros image_paths; simpl.
  { by rewrite app_nil_r. }
  rewrite IH, scan_files_filter. unfold images_of at 2. simpl.
  by rewrite <- app_assoc.
Qed.

Lemma images_of_nil {FS} (platform : Platform FS)
    (walk : list (string * list string * list string)) :
  concat (images_of platform <$> walk) = []
  ↔ Forall (λ entry, Forall (λ file, ¬ is_image platform file) entry.2) walk.
Proof.
  induction walk as [|[[root dirs] files] walk IH].
  { split; [constructor|done]. }
  rewrite fmap_cons, Forall_cons, <- IH. cbn [concat].
  unfold images_of at 1. cbn [fst snd].
  split.
  - intros [Hnil Hrest]%app_eq_nil. split; [|done].
    apply fmap_nil_inv in Hnil. apply Forall_forall. intros file Hfile Himg.
    assert (file ∈ filter (is_image platform) files) as Hin
      by by apply list_elem_of_filter.
    rewrite Hnil in Hin. by apply elem_of_nil in Hin.
  - intros [Hnone ->]. rewrite app_nil_r.
    rewrite Forall_forall in Hnone.
    destruct (filter (is_image platform) files) as [|file rest] eqn:Hf;
      [done|].
    assert (file ∈ filter (is_image platform) files) as Hin
      by (rewrite Hf; left).
    apply list_elem_of_filter in Hin as [Himg Hin]. by destruct (Hnone file).
Qed.

(** X10: the scanner returns, in the order of the walk, the joined paths of
    exactly the files whose lowercased suffix is in the allow-list; names of
    directories are never returned.  It returns nothing exactly when no
    walked file passes the test. *)
Theorem scanner_lists_image_files {FS} (platform : Platform FS) (fs : FS)
    (root_dir : string) :
  (get_image_files platform fs root_dir).1
  = concat (images_of platform <$> os_walk platform fs root_dir)
  ∧ ((get_image_files platform fs root_dir).1 = []
     ↔ Forall (λ entry, Forall (λ file, ¬ is_image platform file) entry.2)
              (os_walk platform fs root_dir)).
Proof.
  assert ((get_image_files platform fs root_dir).1
          = concat (images_of platform <$> os_walk platform fs root_dir))
    as Hscan.
  { unfold get_image_files. simpl. by rewrite scan_dirs_concat. }
  split; [done|]. rewrite Hscan. apply images_of_nil.
Qed.

Lemma size_list_to_set_le (l : list string) :
  (size (list_to_set l : gset string) ≤ length l)%nat.
Proof.
  induction l as [|x l IH].
  { rewrite list_to_set_nil, size_empty. done. }
  rewrite list_to_set_cons, size_union_alt, size_singleton.
  assert (size (list_to_set l ∖ {[x]} : gset string)
          ≤ size (list_to_set l : gset string))%nat
    by (apply subseteq_size; set_solver).
  simpl. lia.
Qed.

Lemma generate_encodings_lookup {FS Hash} (hasher : Hasher FS Hash) (fs : FS)
    (image_paths : list string) (p : string) :
  (generate_encodings hasher fs image_paths).1 !! p
  = if bool_decide (p ∈ image_paths) then encode_image hasher fs p else None.
Proof.
  unfold generate_encodings. rewrite encode_loop_lookup, lookup_empty.
  by destruct (encode_image hasher fs p).
Qed.

(** X11: the encoding map never has more entries than paths were scanned,
    so "Total images processed" never exceeds "Found"; the two counts agree
    when the scanned paths are distinct and every one of them encodes. *)
Theorem encoded_count_le_scanned {FS Hash} (hasher : Hasher FS Hash) (fs : FS)
    (image_paths : list string) :
  (size (generate_encodings hasher fs image_paths).1
   ≤ length image_paths)%nat
  ∧ (NoDup image_paths →
     (∀ p, p ∈ image_paths → is_Some (encode_image hasher fs p)) →
     size (generate_encodings hasher fs image_paths).1 = length image_paths).
Proof.
  set (enc := (generate_encodings hasher fs image_paths).1).
  assert (∀ p, p ∈ dom enc
               ↔ p ∈ image_paths ∧ is_Some (encode_image hasher fs p)) as Hdom.
  { intros p. unfold enc. rewrite elem_of_dom, generate_encodings_lookup.
    case_bool_decide; [naive_solver|]. split; [by intros [? ?]|naive_solver]. }
  rewrite <- (size_dom enc). split.
  - etrans; [|apply size_list_to_set_le].
    apply subseteq_size. intros p [Hp _]%Hdom. by apply elem_of_list_to_set.
  - intros Hnd Hall. rewrite <- (size_list_to_set (C := gset string)) by done.
    f_equal. apply set_eq. intros p. rewrite Hdom, elem_of_list_to_set.
    naive_solver.
Qed.

Lemma encoded_count_le_scanned_witness :
  size (generate_encodings TestWorld.hasher TestWorld.files
          ["a.jpg"; "b.png"]).1 = 2%nat.
Proof.
  apply (proj2 (encoded_count_le_scanned TestWorld.hasher TestWorld.files
                  ["a.jpg"; "b.png"])).
  - apply (bool_decide_unpack _). vm_compute. exact I.
  - intros p [->|[->|[]%elem_of_nil]%elem_of_cons]%elem_of_cons;
      by eexists.
Defined.

Lemma over_encoded_removed {Hash} (encodings : gmap string Hash)
    (duplicates : gmap string (list string)) :
  over_encoded encodings duplicates →
  files_to_remove (select duplicates) ⊆ dom encodings.
Proof.
  intros Hover p [Hin|(k & _ & _ & _ & Hp)]%loop_removed_origin.
  - by apply not_elem_of_empty in Hin.
  - apply dups_of_elem in Hp as (l & Hl & Hp).
    by apply (Hover k l Hl).
Qed.

(** X12: when the library lists encoded paths only, a run calls [os.remove]
    only on paths the scanner returned and the hasher encoded: no file
    outside the scanned images is ever deleted. *)
Theorem only_encoded_files_deleted {FS Hash} (platform : Platform FS)
    (HASH_METHODS : hash_method → Hasher FS Hash) (args : Args) (fs : FS)
    (p : string) :
  (∀ encodings,
     over_encoded encodings
       (find_duplicates (HASH_METHODS (method args)) encodings
                        (threshold args))) →
  OsRemove p ∈ (main platform HASH_METHODS args fs).2 →
  p ∈ (get_image_files platform fs (input_dir args)).1
  ∧ is_Some (encode_image (HASH_METHODS (method args)) fs p).
Proof.
  intros Hover. unfold main.
  destruct (get_image_files platform fs (input_dir args))
    as [image_paths log1] eqn:Hscan.
  assert (OsRemove p ∉ log1) as Hlog1.
  { unfold get_image_files in Hscan. injection Hscan as _ <-.
    rewrite !elem_of_cons, elem_of_nil. naive_solver. }
  destruct image_paths as [|img rest].
  { cbn [snd]. rewrite elem_of_app, elem_of_cons, elem_of_nil. naive_solver. }
  set (hasher := HASH_METHODS (method args)).
  pose proof (encode_loop_log hasher fs ∅ [Print "Generating image hashes..."]
                (img :: rest)) as Hlog2.
  pose proof (generate_encodings_lookup hasher fs (img :: rest) p) as Hlook.
  unfold generate_encodings in *.
  destruct (foldl (encode_step hasher fs)
              (∅, [Print "Generating image hashes..."]) (img :: rest))
    as [enc log2].
  cbn [fst snd] in Hlog2, Hlook. subst log2.
  pose proof (find_and_process_removes platform hasher enc (threshold args)
                (delete_flag args) fs p) as Hact.
  destruct (find_and_process_duplicates platform enc hasher (threshold args)
              (delete_flag args) fs) as [fs' log3].
  cbn [fst snd] in *. intros Hin.
  apply elem_of_app in Hin as [Hin|Hin]; [done|].
  apply elem_of_app in Hin as [Hin|Hin].
  { apply elem_of_cons in Hin as [?|Hin]; [done|].
    by apply list_elem_of_fmap in Hin as (q & ? & _). }
  apply Hact, (over_encoded_removed enc _ (Hover enc)) in Hin.
  apply elem_of_dom in Hin. rewrite Hlook in Hin.
  case_bool_decide; [done|]. by apply is_Some_None in Hin.
Qed.

Lemma test_hasher_over_encoded (encodings : gmap string nat) (threshold : Z) :
  over_encoded encodings (find_duplicates TestWorld.hasher encodings threshold).
Proof.
  intros k l. simpl. rewrite map_lookup_imap.
  destruct (encodings !! k) as [h|] eqn:Hk; simpl; [|done].
  intros [= <-]. split; [by apply elem_of_dom|].
  intros p [_ Hp]%list_elem_of_filter. by apply elem_of_dom, elem_of_dict_keys.
Qed.

Lemma only_encoded_files_deleted_witness :
  OsRemove "b.png"
    ∈ (main TestWorld.platform TestWorld.HASH_METHODS delete_run
            TestWorld.files).2
  ∧ "b.png" ∈ (get_image_files TestWorld.platform TestWorld.files "").1
  ∧ is_Some (encode_image TestWorld.hasher TestWorld.files "b.png").
Proof.
  assert (OsRemove "b.png"
            ∈ (main TestWorld.platform TestWorld.HASH_METHODS delete_run
                    TestWorld.files).2) as Hin.
  { apply elem_of_remove_calls.
    assert (remove_calls
              (main TestWorld.platform TestWorld.HASH_METHODS delete_run
                    TestWorld.files).2 = ["b.png"]) as ->
      by (vm_compute; reflexivity).
    left. }
  split; [exact Hin|].
  exact (only_encoded_files_deleted TestWorld.platform TestWorld.HASH_METHODS
           delete_run TestWorld.files "b.png"
           (λ encodings, test_hasher_over_encoded encodings 10) Hin).
Defined.

(** X13: when the duplicate map speaks of encoded paths only, the printed
    unique count is the number of encoded paths that are not removed, and
    it is at least one as soon as anything was encoded: a run never marks
    every image for deletion. *)
Theorem never_all_removed {Hash} (encodings : gmap string Hash)
    (duplicates : gmap string (list string)) :
  over_encoded encodings duplicates →
  let st := select duplicates in
  unique_to_keep (summarize encodings st)
  = Z.of_nat (size (dom encodings ∖ files_to_remove st))
  ∧ (encodings ≠ ∅ → (1 ≤ unique_to_keep (summarize encodings st))%Z).
Proof.
  intros Hover st.
  pose proof (over_encoded_removed encodings duplicates Hover) as Hsub.
  fold st in Hsub.
  assert (unique_to_keep (summarize encodings st)
          = Z.of_nat (size (dom encodings ∖ files_to_remove st))) as Huniq.
  { unfold summarize. simpl. rewrite size_difference by done.
    rewrite size_dom.
    pose proof (subseteq_size _ _ Hsub) as Hle. rewrite size_dom in Hle. lia. }
  split; [done|]. intros Hne. rewrite Huniq.
  assert (∃ k, k ∈ dom encodings ∖ files_to_remove st) as [k Hk].
  { destruct (decide (files_to_remove st = ∅)) as [Hnone|Hsome].
    - rewrite Hnone.
      destruct (map_choose encodings Hne) as (k & h & Hk).
      exists k. apply elem_of_difference. split; [by apply elem_of_dom|].
      apply not_elem_of_empty.
    - apply set_choose_L in Hsome as [p Hp].
      apply loop_removed_origin in Hp as [Hp|(k & _ & Hk & _ & Hlisted)].
      { by apply not_elem_of_empty in Hp. }
      exists k. apply elem_of_difference. split.
      + apply dups_of_elem in Hlisted as (l & Hl & _).
        by destruct (Hover k l Hl) as [? _].
      + intros Hr. by apply (select_separated duplicates k). }
  assert (size (dom encodings ∖ files_to_remove st) ≠ 0%nat) as Hpos.
  { intros Hzero%size_empty_inv. set_solver. }
  lia.
Qed.

Lemma never_all_removed_witness :
  (1 ≤ unique_to_keep
         (summarize (<["A" := 1%nat]> (<["B" := 2%nat]> (<["C" := 3%nat]> ∅)))
                    (select (three_files "A" "B" "C"))))%Z.
Proof.
  apply (never_all_removed
           (<["A" := 1%nat]> (<["B" := 2%nat]> (<["C" := 3%nat]> ∅)))
           (three_files "A" "B" "C")).
  - intros k l Hl. rewrite !dom_insert_L, dom_empty_L.
    unfold three_files in Hl.
    apply lookup_insert_Some in Hl as [[<- <-]|[_ Hl]].
    { split; [set_solver|]. intros p Hp.
      apply elem_of_cons in Hp as [->|Hp]; [set_solver|].
      apply elem_of_cons in Hp as [->|Hp]; [set_solver|].
      by apply elem_of_nil in Hp. }
    apply lookup_insert_Some in Hl as [[<- <-]|[_ Hl]].
    { split; [set_solver|]. intros p Hp.
      apply elem_of_cons in Hp as [->|Hp]; [set_solver|].
      by apply elem_of_nil in Hp. }
    apply lookup_insert_Some in Hl as [[<- <-]|[_ Hl]].
    { split; [set_solver|]. by intros p Hp%elem_of_nil. }
    by rewrite lookup_empty in Hl.
  - intros Hempty.
    apply (f_equal (λ m : gmap string nat, m !! "A")) in Hempty.
    by rewrite lookup_insert_eq, lookup_empty in Hempty.
Defined.

(** X14: when the duplicate map speaks of encoded paths only, the printed
    unique count is the number of kept paths plus the number of encoded
    paths that are neither kept nor removed (the images nothing was listed
    for); so it is never less than the size of the kept set. *)
Theorem unique_count_splits {Hash} (encodings : gmap string Hash)
    (duplicates : gmap string (list string)) :
  over_encoded encodings duplicates →
  let st := select duplicates in
  unique_to_keep (summarize encodings st)
  = (Z.of_nat (size (kept_files st))
     + Z.of_nat (size (dom encodings
                         ∖ (kept_files st ∪ files_to_remove st))))%Z.
Proof.
  intros Hover st.
  pose proof (over_encoded_removed encodings duplicates Hover) as Hsub.
  fold st in Hsub.
  assert (kept_files st ⊆ dom encodings) as Hkept.
  { intros k [Hk|[_ Hne]]%loop_kept_origin.
    - by apply not_elem_of_empty in Hk.
    - apply dups_of_nonempty in Hne as (l & Hl & _).
      by destruct (Hover k l Hl) as [? _]. }
  pose proof (select_separated duplicates) as Hsep. fold st in Hsep.
  unfold separated in Hsep.
  assert (dom encodings ∖ files_to_remove st
          = kept_files st
              ∪ dom encodings ∖ (kept_files st ∪ files_to_remove st)) as Hsplit.
  { apply set_eq. intros p.
    rewrite elem_of_union, !elem_of_difference, elem_of_union.
    destruct (decide (p ∈ kept_files st)) as [Hk|Hk]; [|naive_solver].
    specialize (Hsep p). specialize (Hkept p). naive_solver. }
  assert (size (dom encodings ∖ files_to_remove st)
          = (size (kept_files st)
             + size (dom encodings ∖ (kept_files st ∪ files_to_remove st)))%nat)
    as Hsize.
  { rewrite Hsplit at 1. apply size_union. set_solver. }
  unfold summarize. simpl.
  pose proof (subseteq_size _ _ Hsub) as Hle.
  rewrite size_difference in Hsize by done. rewrite size_dom in *. lia.
Qed.

Lemma unique_count_splits_witness :
  unique_to_keep
    (summarize (<["A" := 1%nat]> (<["B" := 2%nat]> ∅))
               (select (<["A" := []]> (<["B" := []]> ∅)))) = (0 + 2)%Z.
Proof.
  rewrite (unique_count_splits (<["A" := 1%nat]> (<["B" := 2%nat]> ∅))
             (<["A" := []]> (<["B" := []]> ∅))).
  - vm_compute. reflexivity.
  - intros k l Hl. rewrite !dom_insert_L, dom_empty_L.
    apply lookup_insert_Some in Hl as [[<- <-]|[_ Hl]].
    { split; [set_solver|]. by intros p Hp%elem_of_nil. }
    apply lookup_insert_Some in Hl as [[<- <-]|[_ Hl]].
    { split; [set_solver|]. by intros p Hp%elem_of_nil. }
    by rewrite lookup_empty in Hl.
Defined.

(** ** The printed counts and the clusters *)

Lemma lists_encoded_removed {Hash} (encodings : gmap string Hash)
    (duplicates : gmap string (list string)) :
  lists_encoded encodings duplicates →
  files_to_remove (select duplicates) ⊆ dom encodings.
Proof.
  intros Hlists p [Hin|(k & _ & _ & _ & Hp)]%loop_removed_origin.
  - by apply not_elem_of_empty in Hin.
  - apply dups_of_elem in Hp as (l & Hl & Hp). by apply (Hlists k l p).
Qed.

Lemma over_encoded_lists {Hash} (encodings : gmap string Hash)
    (duplicates : gmap string (list string)) :
  over_encoded encodings duplicates → lists_encoded encodings duplicates.
Proof. intros Hover k l p Hl Hp. by apply (Hover k l Hl). Qed.

(** C2 (as the code has it): when every path in a duplicate list is a key of
    the encoding map, the printed unique count is the number of encoded
    paths outside the removed set, the printed duplicate count is the number
    of encoded paths inside it, and the two add up to the encoded count: the
    counts classify every encoded path exactly once.  These are the numbers
    the run prints. *)
Theorem summary_counts_classify {FS Hash} (platform : Platform FS)
    (hasher : Hasher FS Hash) (encodings : gmap string Hash) (threshold : Z)
    (delete_mode : bool) (fs : FS) :
  lists_encoded encodings (find_duplicates hasher encodings threshold) →
  let st := select (find_duplicates hasher encodings threshold) in
  let r := summarize encodings st in
  (unique_to_keep r + duplicates_found r = total_processed r)%Z
  ∧ total_processed r = Z.of_nat (size (dom encodings))
  ∧ classifies_once encodings st
  ∧ (∀ p, p ∈ dom encodings →
          (p ∈ dom encodings ∖ files_to_remove st
           ∧ p ∉ dom encodings ∩ files_to_remove st)
          ∨ (p ∈ dom encodings ∩ files_to_remove st
             ∧ p ∉ dom encodings ∖ files_to_remove st))
  ∧ ∃ rest,
      (find_and_process_duplicates platform encodings hasher threshold
                                   delete_mode fs).2
      = [Print "Finding duplicates..."; FindDuplicates threshold;
         Print (nl ++ "--- Result Summary ---");
         Print ("Total images processed: " ++ pretty (total_processed r));
         Print ("Unique images to keep:  " ++ pretty (unique_to_keep r));
         Print ("Duplicates found:       " ++ pretty (duplicates_found r))]
        ++ rest.
Proof.
  intros Hlists st r.
  pose proof (lists_encoded_removed encodings _ Hlists) as Hsub. fold st in Hsub.
  destruct (reported_counts platform hasher encodings threshold delete_mode fs)
    as (Hsum & _ & _ & Hlog).
  split; [exact Hsum|]. split; [by rewrite size_dom|].
  split; [|split; [|exact Hlog]].
  - unfold classifies_once, summarize. simpl.
    rewrite size_difference by done.
    assert (dom encodings ∩ files_to_remove st = files_to_remove st) as ->
      by set_solver.
    pose proof (subseteq_size _ _ Hsub) as Hle. rewrite size_dom in *.
    split; [lia|done].
  - intros p Hp. rewrite !elem_of_difference, !elem_of_intersection.
    destruct (decide (p ∈ files_to_remove st)); naive_solver.
Qed.

Lemma summary_counts_classify_witness :
  classifies_once (<["a.jpg" := 5%nat]> (<["b.png" := 5%nat]> ∅))
    (select (find_duplicates TestWorld.hasher
               (<["a.jpg" := 5%nat]> (<["b.png" := 5%nat]> ∅)) 10)).
Proof.
  destruct (summary_counts_classify TestWorld.platform TestWorld.hasher
              (<["a.jpg" := 5%nat]> (<["b.png" := 5%nat]> ∅)) 10 false
              TestWorld.files) as (_ & _ & Hclass & _); [|exact Hclass].
  apply over_encoded_lists, test_hasher_over_encoded.
Defined.

(** C2 (as the spec has it) fails: with [A] and [C] encoded and the
    duplicate map {A: [B]}, the path B is removed though it was never
    encoded; the run prints 2, 1 and 1, while both encoded paths are outside
    the removed set and none is inside it. *)
Lemma summary_counts_misclassify :
  unique_to_keep (summarize two_encoded (select stray_listed)) = 1%Z
  ∧ size (dom two_encoded ∖ files_to_remove (select stray_listed)) = 2%nat
  ∧ duplicates_found (summarize two_encoded (select stray_listed)) = 1%Z
  ∧ size (dom two_encoded ∩ files_to_remove (select stray_listed)) = 0%nat
  ∧ ¬ classifies_once two_encoded (select stray_listed).
Proof.
  assert (unique_to_keep (summarize two_encoded (select stray_listed)) = 1%Z)
    as Huniq by (vm_compute; reflexivity).
  assert (size (dom two_encoded ∖ files_to_remove (select stray_listed))
          = 2%nat) as Hleft by (vm_compute; reflexivity).
  split_and!; [done..|vm_compute; reflexivity|vm_compute; reflexivity|].
  intros [Hclass _]. rewrite Huniq, Hleft in Hclass. discriminate.
Qed.

(** C5: in every cluster, that is every set of at least two paths that list
    one another and that no path outside lists, the lowest-sorting path is
    kept and is not removed. *)
Theorem closed_cluster_lowest_kept (duplicates : gmap string (list string))
    (cluster : gset string) (m : string) :
  closed_cluster duplicates cluster →
  lowest_sorting cluster m →
  m ∈ kept_files (select duplicates)
  ∧ m ∉ files_to_remove (select duplicates).
Proof.
  intros ((a & b & Ha & Hb & Hab) & Hmutual & Hclosed) [Hm Hlow].
  apply unlisted_before_kept.
  - assert (∃ c, c ∈ cluster ∧ m ≠ c) as (c & Hc & Hmc).
    { destruct (decide (m = a)) as [->|Hne]; [by exists b|by exists a]. }
    intros Hnil. specialize (Hmutual m c Hm Hc Hmc).
    rewrite Hnil in Hmutual. by apply elem_of_nil in Hmutual.
  - intros q [Hqm Hne] Hlisted. apply Hne.
    apply (anti_symm String.le); [done|].
    apply Hlow. by apply (Hclosed q m).
Qed.

Lemma closed_cluster_lowest_kept_witness :
  closed_cluster two_groups {["C"; "D"]}
  ∧ lowest_sorting {["C"; "D"]} "C"
  ∧ "C" ∈ kept_files (select two_groups)
  ∧ "C" ∉ files_to_remove (select two_groups).
Proof.
  assert (dups_of two_groups "C" = ["D"]) as HC by (vm_compute; reflexivity).
  assert (dups_of two_groups "D" = ["C"]) as HD by (vm_compute; reflexivity).
  assert (closed_cluster two_groups {["C"; "D"]}) as Hcl.
  { split_and!.
    - exists "C", "D". split_and!; [apply elem_of_pair; by left| |done].
      apply elem_of_pair. by right.
    - intros a b Ha Hb Hab.
      apply elem_of_pair in Ha as [-> | ->];
        apply elem_of_pair in Hb as [-> | ->]; rewrite ?HC, ?HD;
        [by destruct Hab|repeat constructor..|by destruct Hab].
    - intros q p Hp Hq. apply dups_of_elem in Hq as (l & Hl & Hin).
      apply elem_of_pair. unfold two_groups in Hl.
      apply lookup_insert_Some in Hl as [[_ <-]|[_ Hl]].
      { apply elem_of_pair in Hp as [-> | ->]; not_listed Hin. }
      apply lookup_insert_Some in Hl as [[_ <-]|[_ Hl]].
      { apply elem_of_pair in Hp as [-> | ->]; not_listed Hin. }
      apply lookup_insert_Some in Hl as [[<- _]|[_ Hl]]; [by left|].
      apply lookup_insert_Some in Hl as [[<- _]|[_ Hl]]; [by right|].
      by rewrite lookup_empty in Hl. }
  assert (lowest_sorting {["C"; "D"]} "C") as Hlow.
  { split; [apply elem_of_pair; by left|]. intros a Ha.
    apply elem_of_pair in Ha as [-> | ->]; done. }
  split; [exact Hcl|]. split; [exact Hlow|].
  exact (closed_cluster_lowest_kept two_groups {["C"; "D"]} "C" Hcl Hlow).
Defined.

(** The pair {B, C} of {A: [B], B: [C], C: [B]} is no cluster: A, outside
    the pair, lists B. *)
Remark open_pair_not_closed : ¬ closed_cluster asymmetric {["B"; "C"]}.
Proof.
  intros (_ & _ & Hclosed).
  assert ("A" ∈ ({["B"; "C"]} : gset string)) as Hin.
  { apply (Hclosed "A" "B"); [apply elem_of_pair; by left|].
    assert (dups_of asymmetric "A" = ["B"]) as -> by (vm_compute; reflexivity).
    left. }
  by apply elem_of_pair in Hin as [?|?].
Qed.
